(** * AWS X-Ray remote sampler: wildcard matching, rule cache, fallback sampler

    A shallow embedding of three TypeScript units of
    [opentelemetry-sampler-aws-xray]:

    - [utils.ts]: [escapeRegExp], [convertPatternToRegExp], [wildcardMatch],
      [attributeMatch];
    - [rule-cache.ts]: the class [RuleCache];
    - [fallback-sampler.ts]: the class [FallbackSampler];

    and of [bunyanLevelFromSeverity] of [opentelemetry-instrumentation-bunyan].

    Conventions of the embedding.
    - JavaScript strings are [string]s whose characters are the UTF-16 code
      units 0..255 (Basic Latin and Latin-1 Supplement); [toLowerCase] is the
      Unicode lower-casing of these code points.  Strings with other code
      units are outside the model.
    - A JavaScript object used as a dictionary is a finite map ([gmap]) of
      its own properties together with the members it inherits from
      [Object.prototype] (module [JsObject]).
    - Integral JavaScript numbers are [Z]; sampling rates are rationals [Qc].
    - [Date.now()] is an explicit argument [now].
    - Methods that mutate [this] return the new object state; a method that
      can raise returns an [option], [None] standing for the exception. *)

From Stdlib Require Import ZArith String Ascii List Bool Lia.
From Stdlib Require Import OrderedTypeEx Qcanon.
From stdpp Require Import base option numbers list strings gmap fin_maps sorting.

Local Open Scope string_scope.
Local Open Scope Z_scope.

(** ** JavaScript strings *)

Module JsString.

(** The code points below 256 that have a lower-case mapping: [A]..[Z]
    (65..90) and the capital letters of Latin-1, U+00C0..U+00D6 and
    U+00D8..U+00DE (192..214 and 216..222; 215 is the multiplication sign).
    The mapping adds 32.  Every other code point below 256 is mapped to
    itself: digits, signs, the small letters, and U+00B5, U+00DF and U+00FF,
    whose capitals lie outside Latin-1. *)
Definition isUpper (c : ascii) : bool :=
  let n := nat_of_ascii c in
  ((65 <=? n)%nat && (n <=? 90)%nat)
  || ((192 <=? n)%nat && (n <=? 214)%nat)
  || ((216 <=? n)%nat && (n <=? 222)%nat).

Definition lowerChar (c : ascii) : ascii :=
  if isUpper c then ascii_of_nat (nat_of_ascii c + 32) else c.

(** [String.prototype.toLowerCase]: on these code points the mapping is
    character by character, without context and without change of length. *)
Fixpoint toLowerCase (s : string) : string :=
  match s with
  | EmptyString => EmptyString
  | String c rest => String (lowerChar c) (toLowerCase rest)
  end.

(** [s.replace(/c/g, by)] for a one-character pattern [c] and a
    replacement [by] without [$] substitutions. *)
Fixpoint replaceAll (c : ascii) (by_ : string) (s : string) : string :=
  match s with
  | EmptyString => EmptyString
  | String d rest =>
      if Ascii.eqb d c then by_ ++ replaceAll c by_ rest
      else String d (replaceAll c by_ rest)
  end.

(** Membership of a character in a string, used for character classes. *)
Fixpoint contains (c : ascii) (s : string) : bool :=
  match s with
  | EmptyString => false
  | String d rest => Ascii.eqb c d || contains c rest
  end.

End JsString.

(** ** Regular expressions

    [String.prototype.match] is given a string, which it compiles with
    [new RegExp(source)] (no flags) and runs as an unanchored search.  The
    model covers the sources [wildcardMatch] can build: the assertions [^]
    and [$], identity escapes of syntax characters, [.], [.*] and plain
    characters.  Any other syntax makes [parse] return [None]. *)

Module RegExp.

Inductive Term : Type :=
| AssertStart               (* ^ *)
| AssertEnd                 (* $ *)
| Lit (c : ascii)           (* a character, plain or escaped *)
| Any                       (* .  *)
| AnyStar.                  (* .* *)

(** SyntaxCharacter of the ECMAScript pattern grammar. *)
Definition isSyntaxCharacter (c : ascii) : bool :=
  JsString.contains c "^$\.*+?()[]{}|".

(** The line terminators, which [.] rejects: of LF, CR, U+2028 and U+2029,
    those among the code units modelled. *)
Definition isLineTerminator (c : ascii) : bool :=
  Ascii.eqb c "010" || Ascii.eqb c "013".

Fixpoint parse (src : string) : option (list Term) :=
  match src with
  | EmptyString => Some []
  | String c rest =>
      if Ascii.eqb c "\" then
        match rest with
        | String d rest' =>
            if isSyntaxCharacter d then cons (Lit d) <$> parse rest' else None
        | EmptyString => None
        end
      else if Ascii.eqb c "." then
        match rest with
        | String d rest' =>
            if Ascii.eqb d "*" then cons AnyStar <$> parse rest'
            else cons Any <$> parse rest
        | EmptyString => Some [Any]
        end
      else if Ascii.eqb c "^" then cons AssertStart <$> parse rest
      else if Ascii.eqb c "$" then cons AssertEnd <$> parse rest
      else if isSyntaxCharacter c then None
      else cons (Lit c) <$> parse rest
  end.

(** Does [r] match a prefix of [text]?  [atStart] tells whether [text] is
    the whole input (position 0). *)
Fixpoint matchHere (r : list Term) : string -> bool -> bool :=
  match r with
  | [] => fun _ _ => true
  | AssertStart :: r' => fun text atStart => atStart && matchHere r' text atStart
  | AssertEnd :: r' =>
      fun text atStart =>
        match text with
        | EmptyString => matchHere r' text atStart
        | String _ _ => false
        end
  | Lit c :: r' =>
      fun text _ =>
        match text with
        | EmptyString => false
        | String d text' => Ascii.eqb d c && matchHere r' text' false
        end
  | Any :: r' =>
      fun text _ =>
        match text with
        | EmptyString => false
        | String d text' => negb (isLineTerminator d) && matchHere r' text' false
        end
  | AnyStar :: r' =>
      fix star (text : string) (atStart : bool) : bool :=
        match text with
        | EmptyString => matchHere r' text atStart
        | String d text' =>
            (negb (isLineTerminator d) && star text' false)
            || matchHere r' text atStart
        end
  end.

Fixpoint searchFrom (r : list Term) (text : string) (atStart : bool) : bool :=
  matchHere r text atStart
  || match text with
     | EmptyString => false
     | String _ text' => searchFrom r text' false
     end.

(** [text.match(r) !== null] *)
Definition test (r : list Term) (text : string) : bool :=
  searchFrom r text true.

End RegExp.

(** ** utils.ts *)

(** The character class [[.+^${}()|[\]\\]] of [escapeRegExp]. *)
Definition escapedClass : string := ".+^${}()|[]\".

(** [regExPattern.replace(/[.+^${}()|[\]\\]/g, '\\$&')] *)
Fixpoint escapeRegExp (regExPattern : string) : string :=
  match regExPattern with
  | EmptyString => EmptyString
  | String c rest =>
      if JsString.contains c escapedClass
      then String "\" (String c (escapeRegExp rest))
      else String c (escapeRegExp rest)
  end.

Definition convertPatternToRegExp (pattern : string) : string :=
  JsString.replaceAll "?" "." (JsString.replaceAll "*" ".*" (escapeRegExp pattern)).

(** [AttributeValue] of [@opentelemetry/api]. *)
Inductive AttributeValue : Type :=
| AString (s : string)
| ANumber (n : Z)
| ABoolean (b : bool)
| AStringArray (l : list (option string))
| ANumberArray (l : list (option Z))
| ABooleanArray (l : list (option bool)).

(** [Attributes]: a key may be present with the value [undefined] ([None]). *)
Abbreviation Attributes := (gmap string (option AttributeValue)).

(** [wildcardMatch(pattern?, text?)]; [None] is [undefined].  A source that
    does not compile would raise a [SyntaxError]; that branch is never taken,
    as every converted pattern compiles. *)
Definition wildcardMatch (pattern : option string) (text : option AttributeValue) : bool :=
  if decide (pattern = Some "*") then true
  else
    match pattern, text with
    | Some pattern, Some (AString text) =>
        if (String.length pattern =? 0)%nat then (String.length text =? 0)%nat
        else
          match RegExp.parse
                  ("^" ++ convertPatternToRegExp (JsString.toLowerCase pattern) ++ "$") with
          | Some r => RegExp.test r (JsString.toLowerCase text)
          | None => false
          end
    | _, _ => false
    end.

(** [Object.keys] and [Object.entries] of a dictionary.  The enumeration
    order is that of [map_to_list]; the code below only counts. *)
Definition Object_keys {V} (o : gmap string V) : list string := (map_to_list o).*1.
Definition Object_entries {V} (o : gmap string V) : list (string * V) := map_to_list o.

Definition attributeMatch
    (attributes : option Attributes)
    (ruleAttributes : option (gmap string string)) : bool :=
  match ruleAttributes with
  | None => true
  | Some ruleAttributes =>
      if (length (Object_keys ruleAttributes) =? 0)%nat then true
      else
        match attributes with
        | None => false
        | Some attributes =>
            if (length (Object_keys attributes) =? 0)%nat
               || (length (Object_keys attributes) <? length (Object_keys ruleAttributes))%nat
            then false
            else
              let matchedCount :=
                foldl
                  (fun (matchedCount : nat) '(key, value) =>
                     match List.find (fun ruleKey => String.eqb ruleKey key)
                                     (Object_keys ruleAttributes) with
                     | None => matchedCount
                     | Some foundKey =>
                         if wildcardMatch (ruleAttributes !! foundKey) value
                         then (matchedCount + 1)%nat
                         else matchedCount
                     end)
                  0%nat (Object_entries attributes) in
              (matchedCount =? length (Object_keys ruleAttributes))%nat
        end
  end.

(** ** Records exchanged with the X-Ray service *)

(** Modelled from the spec: the class [SamplingRule] of [sampling-rule.ts],
    which is not part of the sources at hand.  The fields are those of the
    data model; [equals] is the full structural comparison. *)
Module SamplingRule.

Record t : Type := mk {
  RuleName : string;
  Priority : Z;
  ResourceARN : string;
  ServiceName : string;
  ServiceType : string;
  Host : string;
  HTTPMethod : string;
  URLPath : string;
  ReservoirSize : Z;
  FixedRate : Qcanon.Qc;
  Attributes : option (gmap string string);
  Version : Z
}.

#[global] Instance eq_dec : EqDecision t.
Proof. solve_decision. Defined.

Definition equals (this other : t) : bool := bool_decide (this = other).

(** [equals] called with [undefined].  No rule is structurally identical to
    [undefined], so the comparison does not answer [true]; whether it
    answers [false] or raises a [TypeError], as reading a field of
    [undefined] does, is left open. *)
Inductive OnUndefined : Type := AnswersFalse | Raises.

End SamplingRule.

(** Modelled from the spec: the interface [SamplingTargetDocument] of
    [remote-sampler.types.ts]; [Interval] is optional. *)
Module SamplingTargetDocument.

Record t : Type := mk {
  RuleName : string;
  FixedRate : Qcanon.Qc;
  ReservoirQuota : option Z;
  ReservoirQuotaTTL : option Z;
  Interval : option Z
}.

End SamplingTargetDocument.

(** ** Plain objects *)

Module JsObject.

(** The property names of [Object.prototype], which every object created by
    an object literal inherits. *)
Definition prototypeNames : list string :=
  [ "constructor"; "__defineGetter__"; "__defineSetter__"; "hasOwnProperty";
    "__lookupGetter__"; "__lookupSetter__"; "isPrototypeOf";
    "propertyIsEnumerable"; "toString"; "valueOf"; "__proto__";
    "toLocaleString" ]%list.

Definition isPrototypeName (key : string) : bool :=
  bool_decide (key ∈ prototypeNames).

(** What reading a property gives when it is not [undefined]: the value of
    an own property, or an inherited member, which is a function or, for
    [__proto__], the prototype: an object in either case, hence truthy. *)
Inductive Value (V : Type) : Type :=
| Own (v : V)
| Inherited (name : string).
Arguments Own {V} v.
Arguments Inherited {V} name.

(** [o[key]] for a plain object with the own properties [o]; [None] is
    [undefined]. *)
Definition get {V} (o : gmap string V) (key : string) : option (Value V) :=
  match o !! key with
  | Some v => Some (Own v)
  | None => if isPrototypeName key then Some (Inherited key) else None
  end.

End JsObject.

(** [TargetMap]: targets by rule name, a plain object. *)
Abbreviation TargetMap := (gmap string SamplingTargetDocument.t).

(** [target.Interval] for what [targetDocuments[name]] gave: the members of
    [Object.prototype] have no property [Interval]. *)
Definition targetInterval (target : JsObject.Value SamplingTargetDocument.t)
  : option Z :=
  match target with
  | JsObject.Own document => SamplingTargetDocument.Interval document
  | JsObject.Inherited _ => None
  end.

(** JavaScript truthiness of an optional number. *)
Definition truthy (n : option Z) : bool :=
  match n with
  | Some i => negb (i =? 0)
  | None => false
  end.

(** ** Arrays *)

Module JsArray.

Section forEach.
Context {A S : Type}.
(** The array held in the state, and the callback [(element, index)]. *)
Variable array : S -> list A.
Variable callback : A -> nat -> S -> S.

(** [Array.prototype.forEach]: the indices below the initial length are
    visited in order, each element being read when its turn comes. *)
Fixpoint forEachFrom (index count : nat) (s : S) : S :=
  match count with
  | O => s
  | Datatypes.S count' =>
      forEachFrom (Datatypes.S index) count'
        (match array s !! index with
         | Some x => callback x index s
         | None => s
         end)
  end.

Definition forEach (s : S) : S := forEachFrom 0 (length (array s)) s.
End forEach.

(** [Array.prototype.sort(comparefn)].  The sort is stable, and [comparefn]
    is asked about an element and one that precedes it in the array: each
    element in turn, from left to right, goes into the part already sorted
    before the first element that [comparefn] puts after it (a result below
    0), hence behind every element it is not put before.  Elements that
    [comparefn] does not separate, by answering 0 or, as the comparator of
    [sortRulesByPriority] does on equal keys, a positive number in either
    direction, keep the order they had. *)
Fixpoint insertSorted {A} (comparefn : A -> A -> Z) (x : A) (sorted : list A)
  : list A :=
  match sorted with
  | [] => [x]
  | y :: rest =>
      if comparefn x y <? 0 then x :: y :: rest
      else y :: insertSorted comparefn x rest
  end.

Definition sort {A} (comparefn : A -> A -> Z) (l : list A) : list A :=
  foldl (fun sorted x => insertSorted comparefn x sorted) [] l.

End JsArray.

(** ** rule-cache.ts *)

(** The cache expires 1 hour after the last refresh time. *)
Definition RULE_CACHE_TTL_MILLIS : Z := 60 * 60 * 1000.

(** 10 second default sampling targets polling interval *)
Definition DEFAULT_TARGET_POLLING_INTERVAL_SECONDS : Z := 10.

Section RuleCache.

(** The class [SamplingRuleApplier] of [sampling-rule-applier.ts] and the
    class [Resource] are not part of the sources at hand; the cache is
    modelled over any implementation of the members it uses.  [withTarget]
    is handed whatever [targetDocuments[name]] gave.  [memberNames] lists the
    property names of an applier, own and inherited from its class; their
    values are taken to be neither [null] nor [undefined] and to have no
    property [samplingRule] (the value of [samplingRule] is a rule, which has
    none).  [equalsUndefined] is what [samplingRule.equals(undefined)]
    does. *)
Context {SamplingRuleApplier Resource : Type}.
Variable samplingRule : SamplingRuleApplier -> SamplingRule.t.
Variable matches : SamplingRuleApplier -> Attributes -> Resource -> bool.
Variable withTarget :
  SamplingRuleApplier -> JsObject.Value SamplingTargetDocument.t ->
  SamplingRuleApplier.
Variable memberNames : SamplingRuleApplier -> list string.
Variable equalsUndefined : SamplingRule.t -> SamplingRule.OnUndefined.

Record RuleCache : Type := mkRuleCache {
  ruleAppliers : list SamplingRuleApplier;
  lastUpdatedEpochMillis : Z;
  samplerResource : Resource
}.

Definition RuleCache_new (samplerResource : Resource) (now : Z) : RuleCache :=
  {| ruleAppliers := [];
     samplerResource := samplerResource;
     lastUpdatedEpochMillis := now |}.

Definition isExpired (this : RuleCache) (now : Z) : bool :=
  let nowInMillis := now in
  nowInMillis >? lastUpdatedEpochMillis this + RULE_CACHE_TTL_MILLIS.

Definition getMatchedRule (this : RuleCache) (attributes : Attributes)
  : option SamplingRuleApplier :=
  List.find
    (fun rule =>
       matches rule attributes (samplerResource this)
       || String.eqb (SamplingRule.RuleName (samplingRule rule)) "Default")
    (ruleAppliers this).

(** The comparator handed to [sort] by [sortRulesByPriority]. *)
Definition compareRules (rule1 rule2 : SamplingRuleApplier) : Z :=
  if SamplingRule.Priority (samplingRule rule1)
     =? SamplingRule.Priority (samplingRule rule2)
  then
    if String.ltb (SamplingRule.RuleName (samplingRule rule1))
                  (SamplingRule.RuleName (samplingRule rule2))
    then -1
    else 1
  else SamplingRule.Priority (samplingRule rule1)
       - SamplingRule.Priority (samplingRule rule2).

Definition sortRulesByPriority (this : RuleCache) : RuleCache :=
  {| ruleAppliers := JsArray.sort compareRules (ruleAppliers this);
     lastUpdatedEpochMillis := lastUpdatedEpochMillis this;
     samplerResource := samplerResource this |}.

(** The dictionary built by the first loop of [updateRules], an object
    literal filled by assignments.  The assignment to the key [__proto__]
    does not create a property: it makes the applier the prototype of the
    dictionary, where reading [__proto__] finds it again; the entry
    [__proto__] of the map stands for that prototype. *)
Definition oldRuleAppliersMap (this : RuleCache) : gmap string SamplingRuleApplier :=
  foldl
    (fun (m : gmap string SamplingRuleApplier) rule =>
       <[SamplingRule.RuleName (samplingRule rule) := rule]> m)
    ∅ (ruleAppliers this).

(** [ruleNameToCheck in oldRuleAppliersMap] and, when it holds,
    [oldRuleAppliersMap[ruleNameToCheck]]; [None] when it does not.  Beside
    its entries the dictionary has the members of [Object.prototype] and,
    when an applier has become its prototype, the members of that applier. *)
Definition lookupOldRule (oldRuleAppliersMap : gmap string SamplingRuleApplier)
    (ruleNameToCheck : string) : option (JsObject.Value SamplingRuleApplier) :=
  match oldRuleAppliersMap !! ruleNameToCheck with
  | Some oldRule => Some (JsObject.Own oldRule)
  | None =>
      if JsObject.isPrototypeName ruleNameToCheck
         || match oldRuleAppliersMap !! "__proto__" with
            | Some prototype => bool_decide (ruleNameToCheck ∈ memberNames prototype)
            | None => false
            end
      then Some (JsObject.Inherited ruleNameToCheck)
      else None
  end.

(** The callback of the second loop of [updateRules]; the state is the array
    [newRuleAppliers], or [None] once the callback has raised.  An inherited
    member is not an applier: its [samplingRule] is [undefined]. *)
Definition adoptOrRetain (oldRuleAppliersMap : gmap string SamplingRuleApplier)
    (newRule : SamplingRuleApplier) (index : nat)
    (s : option (list SamplingRuleApplier)) : option (list SamplingRuleApplier) :=
  newRuleAppliers ← s;
  let ruleNameToCheck := SamplingRule.RuleName (samplingRule newRule) in
  match lookupOldRule oldRuleAppliersMap ruleNameToCheck with
  | Some (JsObject.Own oldRule) =>
      if SamplingRule.equals (samplingRule newRule) (samplingRule oldRule)
      then Some (<[index := oldRule]> newRuleAppliers)
      else Some newRuleAppliers
  | Some (JsObject.Inherited _) =>
      match equalsUndefined (samplingRule newRule) with
      | SamplingRule.AnswersFalse => Some newRuleAppliers
      | SamplingRule.Raises => None
      end
  | None => Some newRuleAppliers
  end.

(** [updateRules]; [None] when [equals] has raised, which leaves the cache
    as it was. *)
Definition updateRules (this : RuleCache)
    (newRuleAppliers : list SamplingRuleApplier) (now : Z) : option RuleCache :=
  newRuleAppliers ←
    JsArray.forEach (default []) (adoptOrRetain (oldRuleAppliersMap this))
      (Some newRuleAppliers);
  let this :=
    {| ruleAppliers := newRuleAppliers;
       lastUpdatedEpochMillis := lastUpdatedEpochMillis this;
       samplerResource := samplerResource this |} in
  let this := sortRulesByPriority this in
  Some {| ruleAppliers := ruleAppliers this;
          lastUpdatedEpochMillis := now;
          samplerResource := samplerResource this |}.

(** The callback of the loop of [updateTargets]; the state is the array
    [this.ruleAppliers] and the variable [minPollingInteral].  What
    [targetDocuments[name]] gives is truthy unless it is [undefined]. *)
Definition applyTarget (targetDocuments : TargetMap)
    (rule : SamplingRuleApplier) (index : nat)
    (s : list SamplingRuleApplier * option Z) : list SamplingRuleApplier * option Z :=
  let '(appliers, minPollingInteral) := s in
  match JsObject.get targetDocuments (SamplingRule.RuleName (samplingRule rule)) with
  | Some target =>
      let appliers := <[index := withTarget rule target]> appliers in
      if truthy (targetInterval target) then
        match minPollingInteral, targetInterval target with
        | None, interval => (appliers, interval)
        | Some m, Some interval =>
            if m >? interval then (appliers, Some interval)
            else (appliers, minPollingInteral)
        | Some _, None => (appliers, minPollingInteral)
        end
      else (appliers, minPollingInteral)
  | None => (appliers, minPollingInteral)
  end.

Definition updateTargets (this : RuleCache) (targetDocuments : TargetMap)
    (lastRuleModification : Z) : (bool * Z) * RuleCache :=
  let minPollingInteral : option Z := None in
  let nextPollingInterval := DEFAULT_TARGET_POLLING_INTERVAL_SECONDS in
  let '(appliers, minPollingInteral) :=
    JsArray.forEach fst (applyTarget targetDocuments)
      (ruleAppliers this, minPollingInteral) in
  let nextPollingInterval :=
    if truthy minPollingInteral
    then default nextPollingInterval minPollingInteral
    else nextPollingInterval in
  let refreshSamplingRules :=
    lastRuleModification * 1000 >? lastUpdatedEpochMillis this in
  ((refreshSamplingRules, nextPollingInterval),
   {| ruleAppliers := appliers;
      lastUpdatedEpochMillis := lastUpdatedEpochMillis this;
      samplerResource := samplerResource this |}).

End RuleCache.

(** ** fallback-sampler.ts *)

(** [SamplingDecision] and [SamplingResult] of [@opentelemetry/sdk-trace-base]. *)
Inductive SamplingDecision : Type := NOT_RECORD | RECORD | RECORD_AND_SAMPLED.

#[global] Instance SamplingDecision_eq_dec : EqDecision SamplingDecision.
Proof. solve_decision. Defined.

Record SamplingResult : Type := mkSamplingResult {
  decision : SamplingDecision;
  attributes : option Attributes
}.

Section FallbackSampler.

(** The collaborators: the types [Context], [SpanKind] and [Link] of the
    API, the library class [TraceIdRatioBasedSampler], which is stateless,
    and the class [RateLimitingSampler] of [rate-limiting-sampler.ts], not
    part of the sources at hand, whose [shouldSample] reads the clock and
    updates the limiter. *)
Context {Context_ SpanKind Link : Type}.
Context {TraceIdRatioBasedSampler RateLimitingSampler : Type}.
Variable TraceIdRatioBasedSampler_new : Qcanon.Qc -> TraceIdRatioBasedSampler.
Variable TraceIdRatioBasedSampler_shouldSample :
  TraceIdRatioBasedSampler -> Context_ -> string -> SamplingResult.
Variable RateLimitingSampler_new : Z -> RateLimitingSampler.
Variable RateLimitingSampler_shouldSample :
  RateLimitingSampler -> Z (* now *) ->
  Context_ -> string -> string -> SpanKind -> Attributes -> list Link ->
  SamplingResult * RateLimitingSampler.

Record FallbackSampler : Type := mkFallbackSampler {
  fixedRateSampler : TraceIdRatioBasedSampler;
  rateLimitingSampler : RateLimitingSampler
}.

(** The literal [0.05]. *)
Definition FALLBACK_RATE : Qcanon.Qc := Qcanon.Q2Qc (QArith_base.Qmake 5 100).

Definition FallbackSampler_new : FallbackSampler :=
  {| fixedRateSampler := TraceIdRatioBasedSampler_new FALLBACK_RATE;
     rateLimitingSampler := RateLimitingSampler_new 1 |}.

(** The arguments of one call of [shouldSample], with the clock reading. *)
Record Request : Type := mkRequest {
  req_now : Z;
  req_context : Context_;
  req_traceId : string;
  req_spanName : string;
  req_spanKind : SpanKind;
  req_attributes : Attributes;
  req_links : list Link
}.

Definition FallbackSampler_shouldSample (this : FallbackSampler) (rq : Request)
  : SamplingResult * FallbackSampler :=
  let '(samplingResult, limiter) :=
    RateLimitingSampler_shouldSample (rateLimitingSampler this) (req_now rq)
      (req_context rq) (req_traceId rq) (req_spanName rq) (req_spanKind rq)
      (req_attributes rq) (req_links rq) in
  let this :=
    {| fixedRateSampler := fixedRateSampler this;
       rateLimitingSampler := limiter |} in
  if negb (bool_decide (decision samplingResult = NOT_RECORD)) then
    (samplingResult, this)
  else
    (TraceIdRatioBasedSampler_shouldSample (fixedRateSampler this)
       (req_context rq) (req_traceId rq),
     this).

(** The sampler after a sequence of calls. *)
Definition FallbackSampler_run (this : FallbackSampler) (rqs : list Request)
  : FallbackSampler :=
  foldl (fun s rq => snd (FallbackSampler_shouldSample s rq)) this rqs.

(** The limiter on its own after the same sequence of calls. *)
Definition RateLimitingSampler_run (limiter : RateLimitingSampler)
    (rqs : list Request) : RateLimitingSampler :=
  foldl
    (fun l rq =>
       snd (RateLimitingSampler_shouldSample l (req_now rq)
              (req_context rq) (req_traceId rq) (req_spanName rq)
              (req_spanKind rq) (req_attributes rq) (req_links rq)))
    limiter rqs.

End FallbackSampler.


(** ** rule-cache.ts: statistics documents *)

(** [ISamplingStatistics] of [remote-sampler.types.ts], with the fields
    [createSamplingStatisticsDocuments] reads. *)
Module ISamplingStatistics.

Record t : Type := mk {
  RequestCount : Z;
  SampleCount : Z;
  BorrowCount : Z
}.

End ISamplingStatistics.

(** [SamplingStatisticsDocument] of [remote-sampler.types.ts], with the
    fields [createSamplingStatisticsDocuments] writes. *)
Module SamplingStatisticsDocument.

Record t : Type := mk {
  ClientID : string;
  RuleName : string;
  Timestamp : Z;
  RequestCount : Z;
  BorrowCount : Z;
  SampledCount : Z
}.

End SamplingStatisticsDocument.

Section RuleCacheStatistics.

Context {SamplingRuleApplier Resource : Type}.
Variable samplingRule : SamplingRuleApplier -> SamplingRule.t.
(** [snapshotStatistics] of the applier returns the statistics and changes
    the applier it is called on. *)
Variable snapshotStatistics :
  SamplingRuleApplier -> ISamplingStatistics.t * SamplingRuleApplier.

(** The callback of the loop of [createSamplingStatisticsDocuments]; the
    state is the array [this.ruleAppliers] and [statisticsDocuments], and
    [clock index] is what [Date.now()] returns during the visit of
    [index]. *)
Definition pushStatisticsDocument (clientId : string) (clock : nat -> Z)
    (rule : SamplingRuleApplier) (index : nat)
    (s : list SamplingRuleApplier * list SamplingStatisticsDocument.t)
  : list SamplingRuleApplier * list SamplingStatisticsDocument.t :=
  let '(appliers, statisticsDocuments) := s in
  let '(statistics, rule) := snapshotStatistics rule in
  let nowInSeconds := clock index / 1000 in
  let samplingStatisticsDoc :=
    {| SamplingStatisticsDocument.ClientID := clientId;
       SamplingStatisticsDocument.RuleName := SamplingRule.RuleName (samplingRule rule);
       SamplingStatisticsDocument.Timestamp := nowInSeconds;
       SamplingStatisticsDocument.RequestCount := ISamplingStatistics.RequestCount statistics;
       SamplingStatisticsDocument.BorrowCount := ISamplingStatistics.BorrowCount statistics;
       SamplingStatisticsDocument.SampledCount := ISamplingStatistics.SampleCount statistics |} in
  (<[index := rule]> appliers, (statisticsDocuments ++ [samplingStatisticsDoc])%list).

Definition createSamplingStatisticsDocuments
    (this : @RuleCache SamplingRuleApplier Resource) (clientId : string)
    (clock : nat -> Z)
  : list SamplingStatisticsDocument.t * @RuleCache SamplingRuleApplier Resource :=
  let '(appliers, statisticsDocuments) :=
    JsArray.forEach fst (pushStatisticsDocument clientId clock)
      (ruleAppliers this, []) in
  (statisticsDocuments,
   {| ruleAppliers := appliers;
      lastUpdatedEpochMillis := lastUpdatedEpochMillis this;
      samplerResource := samplerResource this |}).

End RuleCacheStatistics.

(** ** opentelemetry-instrumentation-bunyan: instrumentation.ts *)

Section Bunyan.

(** The members of the enumeration [SeverityNumber] of
    [@opentelemetry/api-logs] that the function compares with. *)
Variables FATAL ERROR WARN INFO DEBUG TRACE : Z.

(** [bunyanLevelFromSeverity(severity)]; [None] is [undefined]. *)
Definition bunyanLevelFromSeverity (severity : Z) : option string :=
  if severity >=? FATAL then Some "fatal"
  else if severity >=? ERROR then Some "error"
  else if severity >=? WARN then Some "warn"
  else if severity >=? INFO then Some "info"
  else if severity >=? DEBUG then Some "debug"
  else if severity >=? TRACE then Some "trace"
  else None.

End Bunyan.

(** ** Vocabulary of the statements *)

(** [typeof text === 'string'] *)
Definition isStringValue (text : option AttributeValue) : bool :=
  match text with
  | Some (AString _) => true
  | _ => false
  end.


(** The letters that come in two cases, as pairs (capital, small): [A]/[a]
    to [Z]/[z], and the Latin-1 letters U+00C0/U+00E0 to U+00D6/U+00F6 and
    U+00D8/U+00F8 to U+00DE/U+00FE. *)
Definition casePairs : list (ascii * ascii) :=
  List.map (fun n => (ascii_of_nat n, ascii_of_nat (n + 32)))
    (List.seq 65 26 ++ List.seq 192 23 ++ List.seq 216 7)%list.

(** Two characters are the same letter: they are equal, or one is the
    capital and the other the small form of one letter. *)
Definition sameLetter (c d : ascii) : bool :=
  Ascii.eqb c d
  || existsb
       (fun p => (Ascii.eqb c (fst p) && Ascii.eqb d (snd p))
                 || (Ascii.eqb c (snd p) && Ascii.eqb d (fst p)))
       casePairs.

(** Case-insensitive equality of two strings: the same length and, position
    by position, the same letter. *)
Fixpoint equalsIgnoreCaseb (s1 s2 : string) : bool :=
  match s1, s2 with
  | EmptyString, EmptyString => true
  | String c rest1, String d rest2 => sameLetter c d && equalsIgnoreCaseb rest1 rest2
  | _, _ => false
  end.

Definition equalsIgnoreCase (s1 s2 : string) : Prop :=
  equalsIgnoreCaseb s1 s2 = true.

(** All 256 code units. *)
Definition codeUnits : list ascii := List.map ascii_of_nat (List.seq 0 256).

(** The term a pattern character stands for, and the pattern as a whole. *)
Definition termOfChar (c : ascii) : RegExp.Term :=
  if Ascii.eqb c "*" then RegExp.AnyStar
  else if Ascii.eqb c "?" then RegExp.Any
  else RegExp.Lit c.

Fixpoint termsOfPattern (pattern : string) : list RegExp.Term :=
  match pattern with
  | EmptyString => []
  | String c rest => termOfChar c :: termsOfPattern rest
  end.

(** Does a regular expression source begin with a quantifier star? *)
Definition startsWithStar (s : string) : bool :=
  match s with
  | EmptyString => false
  | String c _ => Ascii.eqb c "*"
  end.

(** Does the candidate entry [(key, value)] satisfy the pattern the rule
    declares for [key]? *)
Definition declaredMatch (ruleAttributes : gmap string string)
    (entry : string * option AttributeValue) : bool :=
  match ruleAttributes !! entry.1 with
  | Some pattern => wildcardMatch (Some pattern) entry.2
  | None => false
  end.

(** Every key the rule declares is present in the candidate with a value
    that matches the declared pattern. *)
Definition allDeclaredMatch (ruleAttributes : gmap string string) (a : Attributes) : Prop :=
  forall key pattern,
    ruleAttributes !! key = Some pattern ->
    exists value, a !! key = Some value /\ wildcardMatch (Some pattern) value = true.

(** The order of rules: ([Priority], [RuleName]) ascending. *)
Definition ruleLe (r1 r2 : SamplingRule.t) : Prop :=
  SamplingRule.Priority r1 < SamplingRule.Priority r2
  \/ (SamplingRule.Priority r1 = SamplingRule.Priority r2
      /\ String.le (SamplingRule.RuleName r1) (SamplingRule.RuleName r2)).

Section RuleCacheVocabulary.

Context {SamplingRuleApplier Resource : Type}.
Variable samplingRule : SamplingRuleApplier -> SamplingRule.t.
Variable matches : SamplingRuleApplier -> Attributes -> Resource -> bool.
Variable withTarget :
  SamplingRuleApplier -> JsObject.Value SamplingTargetDocument.t ->
  SamplingRuleApplier.
Variable memberNames : SamplingRuleApplier -> list string.
Variable equalsUndefined : SamplingRule.t -> SamplingRule.OnUndefined.

Definition ruleNameOf (a : SamplingRuleApplier) : string :=
  SamplingRule.RuleName (samplingRule a).

Definition applierLe (a b : SamplingRuleApplier) : Prop :=
  ruleLe (samplingRule a) (samplingRule b).

Definition isDefault (a : SamplingRuleApplier) : Prop :=
  ruleNameOf a = "Default".

(** The [matches] predicate of [a] holds for the candidate. *)
Definition satisfied (this : @RuleCache SamplingRuleApplier Resource)
    (attributes : Attributes) (a : SamplingRuleApplier) : Prop :=
  matches a attributes (samplerResource this) = true.

(** [a] is an element of [l] with [P], and no element with [P] is
    ordered strictly before it. *)
Definition lowestAmong (P : SamplingRuleApplier -> Prop)
    (l : list SamplingRuleApplier) (a : SamplingRuleApplier) : Prop :=
  a ∈ l /\ P a /\ forall b, b ∈ l -> P b -> applierLe a b.

(** The appliers are in the order [sortRulesByPriority] leaves them in. *)
Definition inPriorityOrder (l : list SamplingRuleApplier) : Prop :=
  StronglySorted applierLe l.

(** Rule names are a key. *)
Definition uniqueNames (l : list SamplingRuleApplier) : Prop :=
  NoDup (ruleNameOf <$> l).

(** Every applier named "Default" is ordered strictly after every other
    applier. *)
Definition defaultLast (l : list SamplingRuleApplier) : Prop :=
  forall d b, d ∈ l -> b ∈ l -> isDefault d -> ~ isDefault b -> ~ applierLe d b.

(** What a lookup is said to return: the lowest satisfied applier; failing
    that the applier named "Default"; failing that nothing; and never the
    default applier when another rule is satisfied. *)
Definition lowestSatisfiedElseDefault
    (this : @RuleCache SamplingRuleApplier Resource) (attributes : Attributes)
    (result : option SamplingRuleApplier) : Prop :=
  let l := ruleAppliers this in
  let sat := satisfied this attributes in
  ((exists b, b ∈ l /\ sat b) ->
     exists a, result = Some a /\ lowestAmong sat l a)
  /\ (~ (exists b, b ∈ l /\ sat b) -> (exists d, d ∈ l /\ isDefault d) ->
        exists d, result = Some d /\ d ∈ l /\ isDefault d)
  /\ (~ (exists b, b ∈ l /\ sat b) -> ~ (exists d, d ∈ l /\ isDefault d) ->
        result = None)
  /\ (forall d, result = Some d -> isDefault d ->
        ~ (exists b, b ∈ l /\ ~ isDefault b /\ sat b)).

(** What the spec says [updateRules] does with one incoming applier: an
    existing applier of the same name with structurally identical content
    is substituted for it; otherwise the incoming applier is adopted. *)
Definition retainOrAdopt (old : list SamplingRuleApplier)
    (incoming : SamplingRuleApplier) : SamplingRuleApplier :=
  match List.find (fun o => String.eqb (ruleNameOf o) (ruleNameOf incoming)) old with
  | Some o => if decide (samplingRule o = samplingRule incoming) then o else incoming
  | None => incoming
  end.

(** A non-zero [Interval] of a received target whose rule has an applier
    in the cache. *)
Definition eligibleInterval (this : @RuleCache SamplingRuleApplier Resource)
    (targetDocuments : TargetMap) (i : Z) : Prop :=
  exists a target,
    a ∈ ruleAppliers this
    /\ targetDocuments !! ruleNameOf a = Some target
    /\ SamplingTargetDocument.Interval target = Some i
    /\ i <> 0.

(** One incoming applier, as the second loop of [updateRules] leaves it
    when it does not raise. *)
Definition adopted (m : gmap string SamplingRuleApplier)
    (newRule : SamplingRuleApplier) : SamplingRuleApplier :=
  match m !! ruleNameOf newRule with
  | Some oldRule =>
      if SamplingRule.equals (samplingRule newRule) (samplingRule oldRule)
      then oldRule else newRule
  | None => newRule
  end.

(** The second loop of [updateRules] raises at this incoming applier: its
    name is in the dictionary by inheritance only, and [equals] raises when
    it is handed [undefined]. *)
Definition raisesOn (m : gmap string SamplingRuleApplier)
    (newRule : SamplingRuleApplier) : bool :=
  match lookupOldRule memberNames m (ruleNameOf newRule) with
  | Some (JsObject.Inherited _) =>
      match equalsUndefined (samplingRule newRule) with
      | SamplingRule.Raises => true
      | SamplingRule.AnswersFalse => false
      end
  | _ => false
  end.

(** The rule name is the name of a member of [Object.prototype]. *)
Definition hasPrototypeName (a : SamplingRuleApplier) : bool :=
  JsObject.isPrototypeName (ruleNameOf a).

(** One applier, as the loop of [updateTargets] leaves it. *)
Definition retargeted (targetDocuments : TargetMap)
    (rule : SamplingRuleApplier) : SamplingRuleApplier :=
  match JsObject.get targetDocuments (ruleNameOf rule) with
  | Some target => withTarget rule target
  | None => rule
  end.

(** [minPollingInteral] after the loop of [updateTargets] has visited one
    more applier. *)
Definition minStep (targetDocuments : TargetMap)
    (minPollingInteral : option Z) (rule : SamplingRuleApplier) : option Z :=
  snd (applyTarget samplingRule withTarget targetDocuments rule 0
         ([], minPollingInteral)).

(** The interval an applier contributes to the next polling interval:
    the non-zero [Interval] of the target received for its rule. *)
Definition intervalOf (targetDocuments : TargetMap) (a : SamplingRuleApplier)
  : option Z :=
  match targetDocuments !! ruleNameOf a with
  | Some target =>
      match SamplingTargetDocument.Interval target with
      | Some i => if i =? 0 then None else Some i
      | None => None
      end
  | None => None
  end.

(** The cache states a sampler can be in: a new cache, then any sequence of
    rule refreshes and target applications. *)
Inductive reachable : @RuleCache SamplingRuleApplier Resource -> Prop :=
| reachable_new samplerResource now :
    reachable (RuleCache_new samplerResource now)
| reachable_updateRules this newRuleAppliers now this' :
    reachable this ->
    updateRules samplingRule memberNames equalsUndefined this newRuleAppliers now
    = Some this' ->
    reachable this'
| reachable_updateTargets this targetDocuments lastRuleModification :
    reachable this ->
    reachable (snd (updateTargets samplingRule withTarget this targetDocuments
                      lastRuleModification)).

End RuleCacheVocabulary.

(** The least [Interval] among all received targets. *)
Definition minReceivedInterval (targetDocuments : TargetMap) (i : Z) : Prop :=
  (exists name target,
      targetDocuments !! name = Some target
      /\ SamplingTargetDocument.Interval target = Some i)
  /\ (forall name target j,
        targetDocuments !! name = Some target ->
        SamplingTargetDocument.Interval target = Some j -> i <= j).

(** ** Reference collaborators, for the examples *)

(** Modelled from the spec: the class [SamplingRuleApplier] of
    [sampling-rule-applier.ts], which is not part of the sources at hand.  An
    applier owns its rule, the quota, quota TTL and rate of its sampler, and
    its statistics.  [withTarget] replaces quota, TTL and rate by the
    target's and keeps rule and statistics; a target without these fields,
    as a member of [Object.prototype] is, leaves quota and TTL undefined and
    the rate at 0, which is what the library's ratio sampler makes of a rate
    that is not a number.  Of [matches] only the part on span attributes is
    modelled.  [equals] is taken to raise on [undefined]. *)
Module ReferenceApplier.

Record Statistics : Type := mkStatistics {
  RequestCount : Z;
  SampleCount : Z;
  BorrowCount : Z
}.

Record t : Type := mk {
  samplingRule : SamplingRule.t;
  reservoirQuota : option Z;
  reservoirQuotaTTL : option Z;
  fixedRate : Qcanon.Qc;
  statistics : Statistics
}.

Definition create (rule : SamplingRule.t) : t :=
  {| samplingRule := rule;
     reservoirQuota := None;
     reservoirQuotaTTL := None;
     fixedRate := SamplingRule.FixedRate rule;
     statistics := mkStatistics 0 0 0 |}.

Definition withTarget (this : t)
    (target : JsObject.Value SamplingTargetDocument.t) : t :=
  match target with
  | JsObject.Own target =>
      {| samplingRule := samplingRule this;
         reservoirQuota := SamplingTargetDocument.ReservoirQuota target;
         reservoirQuotaTTL := SamplingTargetDocument.ReservoirQuotaTTL target;
         fixedRate := SamplingTargetDocument.FixedRate target;
         statistics := statistics this |}
  | JsObject.Inherited _ =>
      {| samplingRule := samplingRule this;
         reservoirQuota := None;
         reservoirQuotaTTL := None;
         fixedRate := Qcanon.Q2Qc (QArith_base.Qmake 0 1);
         statistics := statistics this |}
  end.

(** The members of an applier: its fields and the methods of its class. *)
Definition memberNames (this : t) : list string :=
  [ "samplingRule"; "reservoirQuota"; "reservoirQuotaTTL"; "fixedRate";
    "statistics"; "matches"; "shouldSample"; "snapshotStatistics";
    "withTarget" ]%list.

Definition equalsUndefined (rule : SamplingRule.t) : SamplingRule.OnUndefined :=
  SamplingRule.Raises.

Definition matches (this : t) (attributes : Attributes) (resource : unit) : bool :=
  attributeMatch (Some attributes) (SamplingRule.Attributes (samplingRule this)).

(** The applier after some decisions have been counted. *)
Definition counted (this : t) (requests samples borrows : Z) : t :=
  {| samplingRule := samplingRule this;
     reservoirQuota := reservoirQuota this;
     reservoirQuotaTTL := reservoirQuotaTTL this;
     fixedRate := fixedRate this;
     statistics := mkStatistics requests samples borrows |}.

End ReferenceApplier.

Module Examples.

Definition rate (percent : Z) : Qcanon.Qc :=
  Qcanon.Q2Qc (QArith_base.Qmake percent 100).

Definition rule (ruleName : string) (priority : Z)
    (attrs : option (gmap string string)) : SamplingRule.t :=
  SamplingRule.mk ruleName priority "*" "*" "*" "*" "*" "*" 1 (rate 5) attrs 1.

(** A rule named "Default" that is ordered first and asks for an
    attribute, and a rule without conditions ordered after it. *)
Definition defaultFirst : ReferenceApplier.t :=
  ReferenceApplier.create (rule "Default" 1 (Some {["k" := "v"]})).
Definition anyRequest : ReferenceApplier.t :=
  ReferenceApplier.create (rule "any" 2 None).

Definition cacheDefaultFirst : @RuleCache ReferenceApplier.t unit :=
  {| ruleAppliers := [defaultFirst; anyRequest];
     lastUpdatedEpochMillis := 1;
     samplerResource := tt |}.

(** The usual arrangement: the default rule, without conditions, ordered
    last. *)
Definition checkout : ReferenceApplier.t :=
  ReferenceApplier.create (rule "checkout" 1 (Some {["abc" := "12*"]})).
Definition defaultLastApplier : ReferenceApplier.t :=
  ReferenceApplier.create (rule "Default" 10000 None).

Definition cacheUsual : @RuleCache ReferenceApplier.t unit :=
  {| ruleAppliers := [checkout; defaultLastApplier];
     lastUpdatedEpochMillis := 1;
     samplerResource := tt |}.

(** The same cache after [checkout] has counted some decisions. *)
Definition cacheInUse : @RuleCache ReferenceApplier.t unit :=
  {| ruleAppliers := [ReferenceApplier.counted checkout 7 3 1; defaultLastApplier];
     lastUpdatedEpochMillis := 1;
     samplerResource := tt |}.

Definition target (ruleName : string) (interval : option Z) : SamplingTargetDocument.t :=
  SamplingTargetDocument.mk ruleName (rate 10) (Some 20) (Some 1700000000) interval.

(** Two appliers for the same rule name with different content, the first
    with some decisions counted, and a cache that holds both. *)
Definition twinFirst : ReferenceApplier.t :=
  ReferenceApplier.counted (ReferenceApplier.create (rule "twin" 1 None)) 7 3 1.
Definition twinSecond : ReferenceApplier.t :=
  ReferenceApplier.create (rule "twin" 2 None).

Definition cacheTwins : @RuleCache ReferenceApplier.t unit :=
  {| ruleAppliers := [twinFirst; twinSecond];
     lastUpdatedEpochMillis := 1;
     samplerResource := tt |}.

(** A rule whose name is that of a member of every plain object, with a
    quota in use, alone in a cache. *)
Definition constructorRule : ReferenceApplier.t :=
  ReferenceApplier.withTarget
    (ReferenceApplier.create (rule "constructor" 1 None))
    (JsObject.Own (target "constructor" None)).

Definition cacheConstructor : @RuleCache ReferenceApplier.t unit :=
  {| ruleAppliers := [constructorRule];
     lastUpdatedEpochMillis := 1;
     samplerResource := tt |}.

End Examples.

(** Modelled from the spec: the class [RateLimitingSampler] of
    [rate-limiting-sampler.ts], which is not part of the sources at hand: a
    limiter that lets [quota] decisions through in each wall-clock second.
    With it a stand-in for the library's [TraceIdRatioBasedSampler], which
    decides from the trace id alone. *)
Module ReferenceSamplers.

Record Limiter : Type := mkLimiter {
  quota : Z;
  second : Z;
  used : Z
}.

Definition Limiter_new (quota : Z) : Limiter :=
  {| quota := quota; second := -1; used := 0 |}.

Definition Limiter_shouldSample (this : Limiter) (now : Z)
    (context : unit) (traceId spanName : string) (spanKind : unit)
    (attributes : Attributes) (links : list unit)
  : SamplingResult * Limiter :=
  let nowSecond := now / 1000 in
  let used := if nowSecond =? second this then used this else 0 in
  if used <? quota this then
    ({| decision := RECORD_AND_SAMPLED; attributes := Some attributes |},
     {| quota := quota this; second := nowSecond; used := used + 1 |})
  else
    ({| decision := NOT_RECORD; attributes := Some attributes |},
     {| quota := quota this; second := nowSecond; used := used |}).

Fixpoint traceIdSum (traceId : string) : Z :=
  match traceId with
  | EmptyString => 0
  | String c rest => Z.of_nat (nat_of_ascii c) + traceIdSum rest
  end.

Definition Ratio_new (ratio : Qcanon.Qc) : Qcanon.Qc := ratio.

Definition Ratio_shouldSample (ratio : Qcanon.Qc) (context : unit)
    (traceId : string) : SamplingResult :=
  if (traceIdSum traceId mod 100) * Zpos (QArith_base.Qden (Qcanon.this ratio))
     <? QArith_base.Qnum (Qcanon.this ratio) * 100
  then {| decision := RECORD_AND_SAMPLED; attributes := None |}
  else {| decision := NOT_RECORD; attributes := None |}.

Definition request (now : Z) (traceId : string) : @Request unit unit unit :=
  mkRequest now tt traceId "span" tt ∅ [].

End ReferenceSamplers.


(** ** Glob patterns *)

(** What a wildcard pattern means when case is taken as it is, read off
    the regular expression it is converted to: [*] stands for any run of
    characters other than line terminators, [?] for one such character, any
    other character for itself. *)
Inductive Glob : string -> string -> Prop :=
| Glob_empty : Glob "" ""
| Glob_char c pattern text :
    Ascii.eqb c "*" = false -> Ascii.eqb c "?" = false ->
    Glob pattern text -> Glob (String c pattern) (String c text)
| Glob_one d pattern text :
    RegExp.isLineTerminator d = false ->
    Glob pattern text -> Glob (String "?" pattern) (String d text)
| Glob_star_done pattern text :
    Glob pattern text -> Glob (String "*" pattern) text
| Glob_star_more d pattern text :
    RegExp.isLineTerminator d = false ->
    Glob (String "*" pattern) text -> Glob (String "*" pattern) (String d text).

(** The same reading without regard to case: a pattern character other than
    [*] and [?] stands for its letter in either case. *)
Inductive GlobIgnoreCase : string -> string -> Prop :=
| GlobIgnoreCase_empty : GlobIgnoreCase "" ""
| GlobIgnoreCase_char c d pattern text :
    Ascii.eqb c "*" = false -> Ascii.eqb c "?" = false ->
    sameLetter c d = true ->
    GlobIgnoreCase pattern text -> GlobIgnoreCase (String c pattern) (String d text)
| GlobIgnoreCase_one d pattern text :
    RegExp.isLineTerminator d = false ->
    GlobIgnoreCase pattern text -> GlobIgnoreCase (String "?" pattern) (String d text)
| GlobIgnoreCase_star_done pattern text :
    GlobIgnoreCase pattern text -> GlobIgnoreCase (String "*" pattern) text
| GlobIgnoreCase_star_more d pattern text :
    RegExp.isLineTerminator d = false ->
    GlobIgnoreCase (String "*" pattern) text ->
    GlobIgnoreCase (String "*" pattern) (String d text).


(** Modelled from the spec: [snapshotStatistics] of the applier class of
    [sampling-rule-applier.ts], which is not part of the sources at hand: it
    reads the three counters and resets them. *)
Module ReferenceStatistics.

Definition snapshotStatistics (this : ReferenceApplier.t)
  : ISamplingStatistics.t * ReferenceApplier.t :=
  ({| ISamplingStatistics.RequestCount :=
        ReferenceApplier.RequestCount (ReferenceApplier.statistics this);
      ISamplingStatistics.SampleCount :=
        ReferenceApplier.SampleCount (ReferenceApplier.statistics this);
      ISamplingStatistics.BorrowCount :=
        ReferenceApplier.BorrowCount (ReferenceApplier.statistics this) |},
   ReferenceApplier.counted this 0 0 0).

End ReferenceStatistics.

Section RuleCacheStatisticsVocabulary.

Context {SamplingRuleApplier : Type}.
Variable samplingRule : SamplingRuleApplier -> SamplingRule.t.
Variable snapshotStatistics :
  SamplingRuleApplier -> ISamplingStatistics.t * SamplingRuleApplier.

(** The document pushed during the visit of [rule] at [index]. *)
Definition statisticsDocumentOf (clientId : string) (clock : nat -> Z)
    (index : nat) (rule : SamplingRuleApplier) : SamplingStatisticsDocument.t :=
  let statistics := fst (snapshotStatistics rule) in
  let rule := snd (snapshotStatistics rule) in
  {| SamplingStatisticsDocument.ClientID := clientId;
     SamplingStatisticsDocument.RuleName := SamplingRule.RuleName (samplingRule rule);
     SamplingStatisticsDocument.Timestamp := clock index / 1000;
     SamplingStatisticsDocument.RequestCount := ISamplingStatistics.RequestCount statistics;
     SamplingStatisticsDocument.BorrowCount := ISamplingStatistics.BorrowCount statistics;
     SamplingStatisticsDocument.SampledCount := ISamplingStatistics.SampleCount statistics |}.

End RuleCacheStatisticsVocabulary.

(** * Properties *)

(** ** Strings and regular expressions *)

Module JsStringFacts.
Import JsString.

Lemma app_cons c (s1 s2 : string) : String c s1 ++ s2 = String c (s1 ++ s2).
Proof. reflexivity. Qed.


Lemma app_assoc (s1 s2 s3 : string) : (s1 ++ s2) ++ s3 = s1 ++ s2 ++ s3.
Proof.
  induction s1 as [|c s1 IH]; [reflexivity|].
  rewrite !app_cons. by rewrite IH.
Qed.

Lemma replaceAll_app c by_ s1 s2 :
  replaceAll c by_ (s1 ++ s2) = replaceAll c by_ s1 ++ replaceAll c by_ s2.
Proof.
  induction s1 as [|d s1 IH]; [reflexivity|].
  rewrite app_cons. simpl. rewrite IH.
  destruct (Ascii.eqb d c); [by rewrite app_assoc|reflexivity].
Qed.

Lemma lowerChar_eqb_star c : Ascii.eqb (lowerChar c) "*" = Ascii.eqb c "*".
Proof. destruct c as [[] [] [] [] [] [] [] []]; reflexivity. Qed.

Lemma lowerChar_eqb_question c : Ascii.eqb (lowerChar c) "?" = Ascii.eqb c "?".
Proof. destruct c as [[] [] [] [] [] [] [] []]; reflexivity. Qed.

Lemma contains_cons c d rest :
  contains c (String d rest) = Ascii.eqb c d || contains c rest.
Proof. reflexivity. Qed.

Lemma toLowerCase_cons c s :
  toLowerCase (String c s) = String (lowerChar c) (toLowerCase s).
Proof. reflexivity. Qed.



Lemma length_toLowerCase s : String.length (toLowerCase s) = String.length s.
Proof. induction s; simpl; congruence. Qed.

Lemma length_zero s : (String.length s =? 0)%nat = true <-> s = "".
Proof. destruct s; simpl; split; intros; congruence. Qed.

Lemma In_codeUnits c : List.In c codeUnits.
Proof.
  unfold codeUnits. rewrite <- (ascii_nat_embedding c).
  apply List.in_map, List.in_seq. pose proof (nat_ascii_bounded c). lia.
Qed.

(** Lower-casing identifies exactly the two cases of a letter; checked on
    all pairs of code units. *)
Lemma sameLetter_lowerChar c d :
  sameLetter c d = Ascii.eqb (lowerChar c) (lowerChar d).
Proof.
  assert (List.forallb
            (fun c => List.forallb
               (fun d => Bool.eqb (sameLetter c d)
                           (Ascii.eqb (lowerChar c) (lowerChar d)))
               codeUnits)
            codeUnits = true) as Hall by (vm_compute; reflexivity).
  rewrite List.forallb_forall in Hall. specialize (Hall c (In_codeUnits c)).
  rewrite List.forallb_forall in Hall. specialize (Hall d (In_codeUnits d)).
  by apply Bool.eqb_prop.
Qed.

Lemma equalsIgnoreCase_toLowerCase s1 : forall s2,
  equalsIgnoreCase s1 s2 <-> toLowerCase s1 = toLowerCase s2.
Proof.
  unfold equalsIgnoreCase.
  induction s1 as [|c s1 IH]; intros [|d s2]; simpl; try (split; congruence).
  rewrite andb_true_iff, IH, sameLetter_lowerChar, Ascii.eqb_eq.
  split; [by intros [-> ->]|]. by intros [= -> ->].
Qed.

End JsStringFacts.

Module RegExpFacts.
Import JsString JsStringFacts RegExp.

Lemma escapeRegExp_cons c p :
  escapeRegExp (String c p) = escapeRegExp (String c "") ++ escapeRegExp p.
Proof.
  change (escapeRegExp (String c p))
    with (if contains c escapedClass
          then String "\" (String c (escapeRegExp p))
          else String c (escapeRegExp p)).
  change (escapeRegExp (String c ""))
    with (if contains c escapedClass then String "\" (String c "") else String c "").
  destruct (contains c escapedClass); reflexivity.
Qed.

(** The conversion works character by character. *)
Lemma convert_cons c p :
  convertPatternToRegExp (String c p)
  = convertPatternToRegExp (String c "") ++ convertPatternToRegExp p.
Proof.
  unfold convertPatternToRegExp.
  by rewrite escapeRegExp_cons, !replaceAll_app.
Qed.

Lemma startsWithStar_convert_char c rest :
  startsWithStar (convertPatternToRegExp (String c "") ++ rest) = false.
Proof. destruct c as [[] [] [] [] [] [] [] []]; reflexivity. Qed.

Lemma startsWithStar_convert p :
  startsWithStar (convertPatternToRegExp p ++ "$") = false.
Proof.
  destruct p as [|c p]; [reflexivity|].
  rewrite convert_cons, app_assoc. apply startsWithStar_convert_char.
Qed.

(** Each converted character parses to the term it stands for. *)
Lemma parse_convert_char c rest :
  startsWithStar rest = false ->
  parse (convertPatternToRegExp (String c "") ++ rest)
  = cons (termOfChar c) <$> parse rest.
Proof.
  intros Hrest.
  destruct c as [[] [] [] [] [] [] [] []]; try reflexivity.
  all: destruct rest as [|d rest]; [reflexivity|].
  change (Ascii.eqb d "*" = false) in Hrest.
  transitivity (if Ascii.eqb d "*" then cons AnyStar <$> parse rest
                else cons Any <$> parse (String d rest)); [reflexivity|].
  by rewrite Hrest.
Qed.

Lemma parse_convert p :
  parse (convertPatternToRegExp p ++ "$") = Some (termsOfPattern p ++ [AssertEnd])%list.
Proof.
  induction p as [|c p IH]; [reflexivity|].
  rewrite convert_cons, app_assoc.
  rewrite parse_convert_char by apply startsWithStar_convert.
  by rewrite IH.
Qed.

(** The source built by [wildcardMatch] always compiles. *)
Lemma convert_parse p :
  parse ("^" ++ convertPatternToRegExp p ++ "$")
  = Some (AssertStart :: termsOfPattern p ++ [AssertEnd])%list.
Proof.
  change (parse ("^" ++ convertPatternToRegExp p ++ "$"))
    with (cons AssertStart <$> parse (convertPatternToRegExp p ++ "$")).
  by rewrite parse_convert.
Qed.

Lemma searchFrom_unfold r text atStart :
  searchFrom r text atStart
  = matchHere r text atStart
    || match text with
       | EmptyString => false
       | String _ text' => searchFrom r text' false
       end.
Proof. destruct text; reflexivity. Qed.

Lemma searchFrom_anchored_later r text :
  searchFrom (AssertStart :: r) text false = false.
Proof. induction text as [|c text IH]; [reflexivity|]. simpl. exact IH. Qed.

(** A search for [^r] can only succeed at position 0. *)
Lemma test_anchored r text : test (AssertStart :: r) text = matchHere r text true.
Proof.
  unfold test. rewrite searchFrom_unfold.
  change (matchHere (AssertStart :: r) text true) with (true && matchHere r text true).
  destruct text; simpl; rewrite ?searchFrom_anchored_later; apply orb_false_r.
Qed.



(** What [wildcardMatch] computes on a string value, for a pattern that is
    neither ["*"] nor empty. *)
Lemma wildcardMatch_string pattern text :
  pattern <> "*" -> pattern <> "" ->
  wildcardMatch (Some pattern) (Some (AString text))
  = matchHere (termsOfPattern (toLowerCase pattern) ++ [AssertEnd])%list
      (toLowerCase text) true.
Proof.
  intros Hstar Hempty. unfold wildcardMatch.
  destruct (decide (Some pattern = Some "*")) as [[=]|_]; [done|].
  destruct (String.length pattern =? 0)%nat eqn:Hlen.
  { by apply length_zero in Hlen. }
  by rewrite convert_parse, test_anchored.
Qed.

End RegExpFacts.

(** ** [wildcardMatch] *)



(** C5, as stated, fails: the pattern ["*"] matches an absent value and a
    value that is not a string. *)
Lemma wildcardMatch_star_nonstring :
  ~ (forall pattern text,
        isStringValue text = false -> wildcardMatch pattern text = false).
Proof. intros H. specialize (H (Some "*") None eq_refl). discriminate H. Qed.

(** C5, amended. For every pattern other than ["*"] (an absent pattern
    included), [wildcardMatch] is false whenever the value is absent or not a
    string. *)
Theorem wildcardMatch_nonstring (pattern : option string) (text : option AttributeValue) :
  pattern <> Some "*" ->
  isStringValue text = false ->
  wildcardMatch pattern text = false.
Proof.
  intros Hstar Htext. unfold wildcardMatch.
  destruct (decide (pattern = Some "*")); [done|].
  destruct pattern as [pattern|]; [|reflexivity].
  destruct text as [[]|]; try reflexivity. discriminate Htext.
Qed.

Lemma wildcardMatch_nonstring_witness :
  wildcardMatch (Some "a*") (Some (ANumber 7)) = false.
Proof. apply wildcardMatch_nonstring; [discriminate | reflexivity]. Defined.

(** C6. The pattern ["*"] matches every value, a string or not, present or
    not; the empty pattern matches the empty string and no other string. *)
Theorem wildcardMatch_star_and_empty :
  (forall x, wildcardMatch (Some "*") x = true)
  /\ wildcardMatch (Some "") (Some (AString "")) = true
  /\ (forall c v, wildcardMatch (Some "") (Some (AString (String c v))) = false).
Proof. split; [|split]; reflexivity. Qed.

(** ** [attributeMatch] *)

Module AttributeMatchFacts.

Lemma elem_of_Object_keys {V} (o : gmap string V) key :
  key ∈ Object_keys o <-> is_Some (o !! key).
Proof.
  unfold Object_keys. rewrite list_elem_of_fmap. split.
  - intros [[k v] [-> Hin]]. apply elem_of_map_to_list in Hin. by exists v.
  - intros [v Hv]. exists (key, v). split; [done|]. by apply elem_of_map_to_list.
Qed.

Lemma length_Object_keys {V} (o : gmap string V) : length (Object_keys o) = size o.
Proof. unfold Object_keys. by rewrite length_fmap, length_map_to_list. Qed.

(** [Object.keys(ruleAttributes).find(ruleKey => ruleKey === key)] *)
Lemma find_ruleKey (ruleAttributes : gmap string string) key :
  List.find (fun ruleKey => String.eqb ruleKey key) (Object_keys ruleAttributes)
  = match ruleAttributes !! key with Some _ => Some key | None => None end.
Proof.
  destruct (List.find _ _) as [found|] eqn:Hfind.
  - apply find_some in Hfind as [Hin Heq].
    apply String.eqb_eq in Heq as ->.
    apply list_elem_of_In, elem_of_Object_keys in Hin as [p ->]. done.
  - destruct (ruleAttributes !! key) as [p|] eqn:Hkey; [|done].
    assert (key ∈ Object_keys ruleAttributes) as Hin
      by (apply elem_of_Object_keys; eauto).
    apply list_elem_of_In in Hin.
    pose proof (find_none _ _ Hfind _ Hin) as Hne. simpl in Hne.
    by rewrite String.eqb_refl in Hne.
Qed.

(** The loop counts the candidate entries that satisfy a declared pattern. *)
Lemma matchedCount_filter (ruleAttributes : gmap string string)
    (entries : list (string * option AttributeValue)) (n : nat) :
  foldl
    (fun (matchedCount : nat) '(key, value) =>
       match List.find (fun ruleKey => String.eqb ruleKey key)
                       (Object_keys ruleAttributes) with
       | None => matchedCount
       | Some foundKey =>
           if wildcardMatch (ruleAttributes !! foundKey) value
           then (matchedCount + 1)%nat
           else matchedCount
       end)
    n entries
  = (n + length (filter (fun e => declaredMatch ruleAttributes e = true) entries))%nat.
Proof.
  revert n. induction entries as [|[key value] entries IH]; intros n; simpl.
  { lia. }
  rewrite IH, find_ruleKey, filter_cons.
  assert (declaredMatch ruleAttributes (key, value)
          = match ruleAttributes !! key with
            | Some p => wildcardMatch (Some p) value
            | None => false
            end) as Hdm by reflexivity.
  destruct (decide (declaredMatch ruleAttributes (key, value) = true)) as [Hd|Hd];
    rewrite Hdm in Hd; destruct (ruleAttributes !! key) as [p|] eqn:Hkey;
    rewrite ?Hkey; try done.
  - rewrite Hd. simpl. lia.
  - apply not_true_is_false in Hd. by rewrite Hd.
Qed.

Lemma size_filter_entries (ruleAttributes : gmap string string) (a : Attributes) :
  length (filter (fun e => declaredMatch ruleAttributes e = true) (Object_entries a))
  = size (filter (fun e => declaredMatch ruleAttributes e = true) a).
Proof.
  unfold Object_entries. rewrite map_filter_alt, <- length_map_to_list.
  rewrite map_to_list_to_map; [done|].
  apply NoDup_fmap_fst.
  - intros k v1 v2 [_ H1]%list_elem_of_filter [_ H2]%list_elem_of_filter.
    apply elem_of_map_to_list in H1, H2. congruence.
  - apply NoDup_filter, NoDup_map_to_list.
Qed.

Lemma size_filter_eq_iff (ruleAttributes : gmap string string) (a : Attributes) :
  size (filter (fun e => declaredMatch ruleAttributes e = true) a) = size ruleAttributes
  <-> allDeclaredMatch ruleAttributes a.
Proof.
  set (M := filter (fun e => declaredMatch ruleAttributes e = true) a).
  assert (dom M ⊆ dom ruleAttributes) as Hsub.
  { intros k [v Hv]%elem_of_dom. apply map_lookup_filter_Some in Hv as [_ Hv].
    unfold declaredMatch in Hv. simpl in Hv. apply elem_of_dom.
    destruct (ruleAttributes !! k); [eauto|done]. }
  rewrite <- (size_dom M), <- (size_dom ruleAttributes). split.
  - intros Hsize key pattern Hkey.
    assert (dom M = dom ruleAttributes) as Hdom
      by (apply set_subseteq_size_eq; [done|lia]).
    assert (key ∈ dom M) as [v Hv]%elem_of_dom
      by (rewrite Hdom; apply elem_of_dom; eauto).
    apply map_lookup_filter_Some in Hv as [Ha Hv].
    unfold declaredMatch in Hv. simpl in Hv. rewrite Hkey in Hv. eauto.
  - intros Hall. f_equal. apply set_eq. intros k. split; [apply Hsub|].
    intros [p Hp]%elem_of_dom. destruct (Hall _ _ Hp) as (v & Ha & Hv).
    apply elem_of_dom. exists v. apply map_lookup_filter_Some. split; [done|].
    unfold declaredMatch. simpl. by rewrite Hp.
Qed.

Lemma allDeclaredMatch_size (ruleAttributes : gmap string string) (a : Attributes) :
  allDeclaredMatch ruleAttributes a -> (size ruleAttributes <= size a)%nat.
Proof.
  intros Hall. rewrite <- (size_dom ruleAttributes), <- (size_dom a).
  apply subseteq_size. intros k [p Hp]%elem_of_dom.
  destruct (Hall _ _ Hp) as (v & Ha & _). apply elem_of_dom. eauto.
Qed.

(** What [attributeMatch] computes when the rule declares attributes. *)
Lemma attributeMatch_declared (ruleAttributes : gmap string string) (a : Attributes) :
  ruleAttributes <> ∅ ->
  attributeMatch (Some a) (Some ruleAttributes) = true
  <-> allDeclaredMatch ruleAttributes a.
Proof.
  intros Hne. unfold attributeMatch.
  rewrite !length_Object_keys, matchedCount_filter, size_filter_entries.
  assert (size ruleAttributes <> 0%nat) as Hsz
    by (intros ?%map_size_empty_iff; done).
  destruct (Nat.eqb_spec (size ruleAttributes) 0) as [|_]; [done|].
  destruct (Nat.eqb_spec (size a) 0) as [Ha0|Ha0]; simpl.
  { split; [done|]. intros Hall%allDeclaredMatch_size. lia. }
  destruct (Nat.ltb_spec (size a) (size ruleAttributes)) as [Hlt|Hge].
  { split; [done|]. intros Hall%allDeclaredMatch_size. lia. }
  rewrite Nat.eqb_eq. apply size_filter_eq_iff.
Qed.

End AttributeMatchFacts.

(** C3. A rule that declares no attributes (none, or an empty dictionary)
    matches any candidate.  Otherwise [attributeMatch] is true exactly when
    the candidate is present and every declared key is one of its keys, with
    a value that [wildcardMatch]es the declared pattern; in particular a
    candidate with fewer attributes than declared is rejected. *)
Theorem attributeMatch_spec (attrs : option Attributes) :
  attributeMatch attrs None = true
  /\ attributeMatch attrs (Some ∅) = true
  /\ (forall ruleAttrs : gmap string string,
        ruleAttrs <> ∅ ->
        attributeMatch attrs (Some ruleAttrs) = true
        <-> exists a, attrs = Some a /\ allDeclaredMatch ruleAttrs a)
  /\ (forall (ruleAttrs : gmap string string) a,
        attrs = Some a -> (size a < size ruleAttrs)%nat ->
        attributeMatch attrs (Some ruleAttrs) = false).
Proof.
  split; [reflexivity|]. split; [reflexivity|]. split.
  - intros ruleAttrs Hne. destruct attrs as [a|].
    + rewrite AttributeMatchFacts.attributeMatch_declared by done.
      split; [eauto|]. by intros (a' & [= <-] & Hall).
    + unfold attributeMatch.
      rewrite AttributeMatchFacts.length_Object_keys.
      assert (size ruleAttrs <> 0%nat) as Hsz
        by (intros ?%map_size_empty_iff; done).
      destruct (Nat.eqb_spec (size ruleAttrs) 0) as [|_]; [done|].
      split; [done|]. by intros (a' & [=] & _).
  - intros ruleAttrs a -> Hlt.
    assert (ruleAttrs <> ∅) as Hne.
    { intros ->. rewrite map_size_empty in Hlt. lia. }
    apply not_true_is_false.
    intros Hall%AttributeMatchFacts.attributeMatch_declared; [|done].
    apply AttributeMatchFacts.allDeclaredMatch_size in Hall. lia.
Qed.

Lemma attributeMatch_spec_witness :
  ({["abc" := "12*"]} : gmap string string) <> ∅
  /\ attributeMatch (Some {["abc" := Some (AString "1234")]})
       (Some {["abc" := "12*"]}) = true.
Proof.
  assert (({["abc" := "12*"]} : gmap string string) <> ∅) as Hne
    by apply insert_non_empty.
  split; [exact Hne|].
  apply (proj1 (proj2 (proj2 (attributeMatch_spec _))) _ Hne).
  eexists. split; [reflexivity|].
  intros key pattern [<- <-]%lookup_singleton_Some.
  eexists. split; [apply lookup_singleton_eq | reflexivity].
Defined.

(** ** [RuleCache] *)

Section RuleCacheFacts.

Context {SamplingRuleApplier Resource : Type}.
Variable samplingRule : SamplingRuleApplier -> SamplingRule.t.
Variable matches : SamplingRuleApplier -> Attributes -> Resource -> bool.
Variable withTarget :
  SamplingRuleApplier -> JsObject.Value SamplingTargetDocument.t ->
  SamplingRuleApplier.
Variable memberNames : SamplingRuleApplier -> list string.
Variable equalsUndefined : SamplingRule.t -> SamplingRule.OnUndefined.

Local Abbreviation Cache := (@RuleCache SamplingRuleApplier Resource).
Local Abbreviation le := (applierLe samplingRule).
Local Abbreviation name := (ruleNameOf samplingRule).
Local Open Scope list_scope.

(** *** The order *)

Lemma string_ltb_leb s1 s2 : String.ltb s1 s2 = negb (String.leb s2 s1).
Proof.
  unfold String.ltb, String.leb. rewrite (String.compare_antisym s2 s1).
  by destruct (String.compare s1 s2).
Qed.

(** The comparator keeps [a] before [b] exactly when [a] is not after [b]
    in the order. *)
Lemma compareRules_le a b : ~ (compareRules samplingRule b a < 0) <-> le a b.
Proof.
  unfold compareRules, applierLe, ruleLe, String.le.
  destruct (Z.eqb_spec (SamplingRule.Priority (samplingRule b))
              (SamplingRule.Priority (samplingRule a))) as [Heq|Hne].
  - rewrite string_ltb_leb.
    destruct (String.leb _ _); simpl.
    + split; [|lia]. intros _. right. split; [lia|done].
    + split; [lia|]. intros [?|[_ []]]. lia.
  - split; [lia|]. intros [?|[? _]]; lia.
Qed.

#[local] Instance applierLe_trans : Transitive le.
Proof.
  intros a b c. unfold applierLe, ruleLe.
  intros [H1|[H1 H1']] [H2|[H2 H2']]; try (left; lia).
  right. split; [lia|]. by etrans.
Qed.

#[local] Instance applierLe_total : Total le.
Proof.
  intros a b. unfold applierLe, ruleLe.
  destruct (Z.lt_total (SamplingRule.Priority (samplingRule a))
              (SamplingRule.Priority (samplingRule b))) as [?|[?|?]]; [by auto| |by auto].
  destruct (total String.le (SamplingRule.RuleName (samplingRule a))
              (SamplingRule.RuleName (samplingRule b))); [left|right]; right; split; done.
Qed.

Lemma applierLe_antisym_name a b : le a b -> le b a -> name a = name b.
Proof.
  unfold applierLe, ruleLe, ruleNameOf.
  intros [H1|[H1 H1']] [H2|[H2 H2']]; try lia.
  by apply (anti_symm String.le).
Qed.

Lemma StronglySorted_weaken {A} (R1 R2 : relation A) l :
  (forall a b, R1 a b -> R2 a b) -> StronglySorted R1 l -> StronglySorted R2 l.
Proof.
  intros Himp. induction 1 as [|a l _ IH Hall]; constructor; [done|].
  eapply Forall_impl; [exact Hall|]. intros b. apply Himp.
Qed.

Lemma insertSorted_Permutation (x : SamplingRuleApplier) l :
  JsArray.insertSorted (compareRules samplingRule) x l ≡ₚ x :: l.
Proof.
  induction l as [|y l IH]; simpl; [done|].
  destruct (_ <? 0); [done|]. rewrite IH. apply Permutation_swap.
Qed.

Lemma foldl_insertSorted_Permutation l : forall sorted,
  foldl (fun sorted x => JsArray.insertSorted (compareRules samplingRule) x sorted)
    sorted l ≡ₚ sorted ++ l.
Proof.
  induction l as [|x l IH]; intros sorted; simpl; [by rewrite app_nil_r|].
  rewrite IH, insertSorted_Permutation. apply Permutation_middle.
Qed.

Lemma sort_compareRules_Permutation l :
  JsArray.sort (compareRules samplingRule) l ≡ₚ l.
Proof. apply (foldl_insertSorted_Permutation l []). Qed.

Lemma insertSorted_sorted x l :
  inPriorityOrder samplingRule l ->
  inPriorityOrder samplingRule (JsArray.insertSorted (compareRules samplingRule) x l).
Proof.
  unfold inPriorityOrder.
  induction 1 as [|y l Hsorted IH Hall]; simpl.
  { repeat constructor. }
  destruct (Z.ltb_spec (compareRules samplingRule x y) 0) as [Hlt|Hge].
  - assert (le x y) as Hxy.
    { destruct (total le x y) as [?|Hyx]; [done|].
      apply compareRules_le in Hyx. lia. }
    constructor; [by constructor|]. constructor; [done|].
    eapply Forall_impl; [exact Hall|]. intros b Hb. by etrans.
  - constructor; [done|]. rewrite insertSorted_Permutation.
    constructor; [|done]. apply compareRules_le. lia.
Qed.

Lemma sort_compareRules_sorted l :
  inPriorityOrder samplingRule (JsArray.sort (compareRules samplingRule) l).
Proof.
  unfold JsArray.sort.
  assert (forall sorted, inPriorityOrder samplingRule sorted ->
            inPriorityOrder samplingRule
              (foldl (fun sorted x =>
                        JsArray.insertSorted (compareRules samplingRule) x sorted)
                 sorted l)) as Hfold.
  { induction l as [|x l IH]; intros sorted Hsorted; simpl; [done|].
    by apply IH, insertSorted_sorted. }
  apply Hfold. constructor.
Qed.

Lemma applierLe_refl a : le a a.
Proof. right. split; [done|]. apply (reflexivity (R:=String.le)). Qed.

(** *** [getMatchedRule] *)

(** [find] on an ordered array returns the lowest element that passes. *)
Lemma find_lowest (f : SamplingRuleApplier -> bool) l :
  inPriorityOrder samplingRule l ->
  match List.find f l with
  | Some a => lowestAmong samplingRule (fun b => f b = true) l a
  | None => forall b, b ∈ l -> f b = false
  end.
Proof.
  induction 1 as [|x l Hsorted IH Hall]; simpl.
  { intros b Hb. by apply elem_of_nil in Hb. }
  destruct (f x) eqn:Hfx.
  - split; [by left|]. split; [done|].
    intros b [->|Hb]%elem_of_cons _; [apply applierLe_refl|].
    rewrite Forall_forall in Hall. by apply Hall.
  - destruct (List.find f l) as [a|].
    + destruct IH as (Ha & Hfa & Hmin). split; [by right|]. split; [done|].
      intros b [->|Hb]%elem_of_cons Hfb; [congruence|by apply Hmin].
    + intros b [->|Hb]%elem_of_cons; [done|by apply IH].
Qed.

Lemma getMatchedRule_test (this : Cache) attributes a :
  (matches a attributes (samplerResource this)
   || String.eqb (SamplingRule.RuleName (samplingRule a)) "Default") = true
  <-> satisfied matches this attributes a \/ isDefault samplingRule a.
Proof.
  unfold satisfied, isDefault, ruleNameOf.
  by rewrite orb_true_iff, String.eqb_eq.
Qed.

Lemma uniqueNames_inj l a b :
  uniqueNames samplingRule l -> a ∈ l -> b ∈ l -> name a = name b -> a = b.
Proof.
  unfold uniqueNames. induction l as [|x l IH]; intros Hnd Ha Hb Hname.
  { by apply elem_of_nil in Ha. }
  rewrite fmap_cons in Hnd. apply NoDup_cons in Hnd as [Hx Hnd].
  apply elem_of_cons in Ha as [->|Ha], Hb as [->|Hb]; [done| | |by apply IH].
  - exfalso. apply Hx. rewrite Hname. by apply list_elem_of_fmap_2.
  - exfalso. apply Hx. rewrite <- Hname. by apply list_elem_of_fmap_2.
Qed.

(** With unique names the comparator is a strict total order, and the
    sorted array does not depend on the sorting algorithm. *)
Lemma sort_compareRules_unique l l' :
  uniqueNames samplingRule l ->
  l' ≡ₚ l -> inPriorityOrder samplingRule l' ->
  l' = JsArray.sort (compareRules samplingRule) l.
Proof.
  intros Huniq Hperm Hsorted.
  apply (StronglySorted_unique_strong (applierLe samplingRule)); [|done| |].
  - intros x1 x2 Hx1 Hx2 H12 H21.
    rewrite Hperm in Hx1. rewrite sort_compareRules_Permutation in Hx2.
    eapply uniqueNames_inj; eauto. by apply applierLe_antisym_name.
  - apply sort_compareRules_sorted.
  - by rewrite sort_compareRules_Permutation.
Qed.

(** C1, amended. In a cache whose appliers are in (Priority, RuleName)
    order, as [updateRules] leaves them, [getMatchedRule] returns the lowest
    applier among those whose [matches] predicate is satisfied or whose name
    is "Default", and nothing exactly when there is no such applier.  When
    moreover rule names are unique and the applier named "Default" is
    ordered after every other one, the result is the lowest satisfied
    applier, else the default applier, else nothing, and the default
    applier is never preferred to a satisfied rule. *)
Theorem getMatchedRule_lowest (this : Cache) (attributes : Attributes) :
  inPriorityOrder samplingRule (ruleAppliers this) ->
  let passes a := satisfied matches this attributes a \/ isDefault samplingRule a in
  let result := getMatchedRule samplingRule matches this attributes in
  match result with
  | Some a => lowestAmong samplingRule passes (ruleAppliers this) a
  | None => forall b, b ∈ ruleAppliers this -> ~ passes b
  end
  /\ (uniqueNames samplingRule (ruleAppliers this) ->
      defaultLast samplingRule (ruleAppliers this) ->
      lowestSatisfiedElseDefault samplingRule matches this attributes result).
Proof.
  intros Hsorted passes result.
  assert (match result with
          | Some a => lowestAmong samplingRule passes (ruleAppliers this) a
          | None => forall b, b ∈ ruleAppliers this -> ~ passes b
          end) as HA.
  { subst result. unfold getMatchedRule.
    pose proof (find_lowest
      (fun rule =>
         matches rule attributes (samplerResource this)
         || String.eqb (SamplingRule.RuleName (samplingRule rule)) "Default")
      _ Hsorted) as Hfind.
    destruct (List.find _ _) as [a|].
    - destruct Hfind as (Ha & Hfa & Hmin). split; [done|]. split.
      + by apply getMatchedRule_test.
      + intros b Hb Hpb. apply Hmin; [done|]. by apply getMatchedRule_test.
    - intros b Hb Hpb%getMatchedRule_test. specialize (Hfind b Hb). congruence. }
  split; [exact HA|]. intros Huniq Hlast.
  unfold lowestSatisfiedElseDefault. cbv zeta. repeat split.
  - intros (b & Hb & Hsb). destruct result as [a|]; [|by destruct (HA b Hb); left].
    exists a. split; [done|]. destruct HA as (Ha & Hpa & Hmin).
    split; [done|]. split; [|by intros c Hc Hsc; apply Hmin; [|left]].
    destruct (matches a attributes (samplerResource this)) eqn:Hma; [done|].
    destruct Hpa as [Hsa|Hda]; [unfold satisfied in Hsa; congruence|]. exfalso.
    destruct (decide (name b = "Default")) as [Hdb|Hdb].
    + assert (a = b) as -> by (eapply uniqueNames_inj; eauto; congruence).
      unfold satisfied in Hsb. congruence.
    + by apply (Hlast a b Ha Hb Hda Hdb), Hmin; [|left].
  - intros Hnone (d & Hd & Hdd). destruct result as [a|].
    + exists a. destruct HA as (Ha & [Hsa|Hda] & _); [|done].
      exfalso. apply Hnone. eauto.
    + by destruct (HA d Hd); right.
  - intros Hnone Hnodef. destruct result as [a|]; [|done].
    destruct HA as (Ha & [Hsa|Hda] & _); exfalso; eauto.
  - intros d -> Hdd (b & Hb & Hndb & Hsb). destruct HA as (Hd & _ & Hmin).
    by apply (Hlast d b Hd Hb Hdd Hndb), Hmin; [|left].
Qed.


(** *** The loops *)

Lemma forEachFrom_S {A S} (array : S -> list A) callback index count s :
  JsArray.forEachFrom array callback index (Datatypes.S count) s
  = JsArray.forEachFrom array callback (Datatypes.S index) count
      (match array s !! index with
       | Some x => callback x index s
       | None => s
       end).
Proof. reflexivity. Qed.

Lemma lookup_middle (pre : list SamplingRuleApplier) x l :
  (pre ++ x :: l) !! length pre = Some x.
Proof. by rewrite list_lookup_middle. Qed.

Lemma insert_middle (pre : list SamplingRuleApplier) x y l :
  <[length pre := y]> (pre ++ x :: l) = pre ++ y :: l.
Proof. by rewrite insert_app_r_alt, Nat.sub_diag by lia. Qed.

Lemma forEachFrom_raised m count : forall index,
  JsArray.forEachFrom (default [])
    (adoptOrRetain samplingRule memberNames equalsUndefined m) index count None
  = None.
Proof.
  induction count as [|count IH]; intros index; [reflexivity|].
  rewrite forEachFrom_S. cbn [default from_option id]. rewrite lookup_nil. apply IH.
Qed.

Lemma adoptOrRetain_middle m pre x l :
  adoptOrRetain samplingRule memberNames equalsUndefined m x (length pre)
    (Some (pre ++ x :: l))
  = if raisesOn samplingRule memberNames equalsUndefined m x then None
    else Some ((pre ++ [adopted samplingRule m x]) ++ l).
Proof.
  unfold adoptOrRetain, raisesOn, adopted, lookupOldRule, ruleNameOf.
  rewrite <- app_assoc. cbn [mbind option_bind app].
  destruct (m !! SamplingRule.RuleName (samplingRule x)) as [o|].
  - destruct (SamplingRule.equals _ _); [by rewrite insert_middle|done].
  - destruct (_ || _); [|done]. by destruct (equalsUndefined _).
Qed.

Lemma forEachFrom_adoptOrRetain m l : forall pre,
  JsArray.forEachFrom (default [])
    (adoptOrRetain samplingRule memberNames equalsUndefined m)
    (length pre) (length l) (Some (pre ++ l))
  = if existsb (raisesOn samplingRule memberNames equalsUndefined m) l then None
    else Some (pre ++ (adopted samplingRule m <$> l)).
Proof.
  induction l as [|x l IH]; intros pre; [reflexivity|].
  change (length (x :: l)) with (S (length l)).
  rewrite forEachFrom_S. cbn [default from_option id]. rewrite lookup_middle, adoptOrRetain_middle.
  cbn [existsb].
  destruct (raisesOn samplingRule memberNames equalsUndefined m x);
    [apply forEachFrom_raised|].
  replace (S (length pre)) with (length (pre ++ [adopted samplingRule m x]))
    by (rewrite length_app; simpl; lia).
  rewrite IH, <- app_assoc. reflexivity.
Qed.

Lemma forEach_adoptOrRetain m l :
  JsArray.forEach (default [])
    (adoptOrRetain samplingRule memberNames equalsUndefined m) (Some l)
  = if existsb (raisesOn samplingRule memberNames equalsUndefined m) l then None
    else Some (adopted samplingRule m <$> l).
Proof. apply (forEachFrom_adoptOrRetain m l []). Qed.

Lemma applyTarget_middle targetDocuments pre x l minPollingInteral :
  applyTarget samplingRule withTarget targetDocuments x (length pre)
    (pre ++ x :: l, minPollingInteral)
  = ((pre ++ [retargeted samplingRule withTarget targetDocuments x]) ++ l,
     minStep samplingRule withTarget targetDocuments minPollingInteral x).
Proof.
  unfold applyTarget, retargeted, minStep, applyTarget, ruleNameOf.
  rewrite <- app_assoc. simpl.
  destruct (JsObject.get targetDocuments _) as [target|]; [|done].
  rewrite insert_middle.
  destruct (truthy _); [|done].
  destruct minPollingInteral as [m|], (targetInterval target) as [i|];
    try done.
  by destruct (m >? i).
Qed.

Lemma forEachFrom_applyTarget targetDocuments l : forall pre minPollingInteral,
  JsArray.forEachFrom fst (applyTarget samplingRule withTarget targetDocuments)
    (length pre) (length l) (pre ++ l, minPollingInteral)
  = (pre ++ (retargeted samplingRule withTarget targetDocuments <$> l),
     foldl (minStep samplingRule withTarget targetDocuments) minPollingInteral l).
Proof.
  induction l as [|x l IH]; intros pre minPollingInteral; [reflexivity|].
  change (length (x :: l)) with (S (length l)).
  rewrite forEachFrom_S. cbv [fst]. rewrite lookup_middle, applyTarget_middle.
  replace (S (length pre))
    with (length (pre ++ [retargeted samplingRule withTarget targetDocuments x]))
    by (rewrite length_app; simpl; lia).
  rewrite IH, <- app_assoc. reflexivity.
Qed.

Lemma forEach_applyTarget targetDocuments l minPollingInteral :
  JsArray.forEach fst (applyTarget samplingRule withTarget targetDocuments)
    (l, minPollingInteral)
  = (retargeted samplingRule withTarget targetDocuments <$> l,
     foldl (minStep samplingRule withTarget targetDocuments) minPollingInteral l).
Proof. apply (forEachFrom_applyTarget targetDocuments l []). Qed.

(** [updateTargets], loop-free. *)
Lemma updateTargets_unfold (this : Cache) targetDocuments lastRuleModification :
  updateTargets samplingRule withTarget this targetDocuments lastRuleModification
  = let minPollingInteral :=
      foldl (minStep samplingRule withTarget targetDocuments) None (ruleAppliers this) in
    ((lastRuleModification * 1000 >? lastUpdatedEpochMillis this,
      if truthy minPollingInteral
      then default DEFAULT_TARGET_POLLING_INTERVAL_SECONDS minPollingInteral
      else DEFAULT_TARGET_POLLING_INTERVAL_SECONDS),
     {| ruleAppliers := retargeted samplingRule withTarget targetDocuments <$> ruleAppliers this;
        lastUpdatedEpochMillis := lastUpdatedEpochMillis this;
        samplerResource := samplerResource this |}).
Proof. unfold updateTargets. by rewrite forEach_applyTarget. Qed.


(** *** [updateRules] *)

Lemma foldl_insert_lookup_Some l : forall (m : gmap string SamplingRuleApplier) k o,
  foldl (fun (m : gmap string SamplingRuleApplier) rule =>
           <[SamplingRule.RuleName (samplingRule rule) := rule]> m) m l !! k = Some o ->
  (o ∈ l /\ name o = k) \/ m !! k = Some o.
Proof.
  induction l as [|x l IH]; intros m k o Hk; simpl in Hk; [by right|].
  apply IH in Hk as [[Ho Hname]|Hk]; [left; split; [by right|done]|].
  apply lookup_insert_Some in Hk as [[<- <-]|[_ Hk]]; [|by right].
  left. split; [by left|done].
Qed.

Lemma foldl_insert_lookup_is_Some l : forall (m : gmap string SamplingRuleApplier) k,
  is_Some (m !! k) \/ (exists o, o ∈ l /\ name o = k) ->
  is_Some (foldl (fun (m : gmap string SamplingRuleApplier) rule =>
                    <[SamplingRule.RuleName (samplingRule rule) := rule]> m) m l !! k).
Proof.
  induction l as [|x l IH]; intros m k Hk; simpl.
  { destruct Hk as [?|(o & Ho & _)]; [done|]. by apply elem_of_nil in Ho. }
  apply IH. destruct Hk as [Hk|(o & [->|Ho]%elem_of_cons & Hname)].
  - left. rewrite lookup_insert_is_Some. destruct (decide (name x = k)); auto.
  - left. rewrite lookup_insert_is_Some. by left.
  - right. eauto.
Qed.

(** The dictionary of [updateRules] holds only appliers of the cache,
    under their names. *)
Lemma oldRuleAppliersMap_Some (this : Cache) k o :
  oldRuleAppliersMap samplingRule this !! k = Some o ->
  o ∈ ruleAppliers this /\ name o = k.
Proof. intros [?|Hk]%foldl_insert_lookup_Some; [done|]. by rewrite lookup_empty in Hk. Qed.

(** With unique names, it holds all of them. *)
Lemma oldRuleAppliersMap_elem (this : Cache) o :
  uniqueNames samplingRule (ruleAppliers this) ->
  o ∈ ruleAppliers this ->
  oldRuleAppliersMap samplingRule this !! name o = Some o.
Proof.
  intros Huniq Ho.
  destruct (foldl_insert_lookup_is_Some (ruleAppliers this) ∅ (name o)) as [o' Ho'].
  { right. eauto. }
  unfold oldRuleAppliersMap. fold (name o). rewrite Ho'. f_equal.
  apply oldRuleAppliersMap_Some in Ho' as [Hin Hname].
  by eapply uniqueNames_inj.
Qed.

(** The name of an applier of the cache is an entry of the dictionary. *)
Lemma oldRuleAppliersMap_is_Some (this : Cache) o :
  o ∈ ruleAppliers this ->
  is_Some (oldRuleAppliersMap samplingRule this !! name o).
Proof. intros Ho. apply foldl_insert_lookup_is_Some. right. eauto. Qed.

(** The loop raises only at a name that is not an entry. *)
Lemma raisesOn_None m n :
  raisesOn samplingRule memberNames equalsUndefined m n = true -> m !! name n = None.
Proof.
  unfold raisesOn, lookupOldRule, ruleNameOf.
  by destruct (m !! _).
Qed.


(** The dictionary and the in-place loop do what the spec says for each
    incoming applier. *)
Lemma adopted_retainOrAdopt (this : Cache) n :
  uniqueNames samplingRule (ruleAppliers this) ->
  adopted samplingRule (oldRuleAppliersMap samplingRule this) n
  = retainOrAdopt samplingRule (ruleAppliers this) n.
Proof.
  intros Huniq. unfold adopted, retainOrAdopt, SamplingRule.equals.
  destruct (List.find _ _) as [o|] eqn:Hfind.
  - apply find_some in Hfind as [Ho%list_elem_of_In Hname%String.eqb_eq].
    rewrite <- Hname, oldRuleAppliersMap_elem by done.
    destruct (decide (samplingRule o = samplingRule n)) as [Heq|Hne].
    + by rewrite bool_decide_true.
    + by rewrite bool_decide_false.
  - destruct (oldRuleAppliersMap samplingRule this !! name n) as [o|] eqn:Hk; [|done].
    apply oldRuleAppliersMap_Some in Hk as [Ho%list_elem_of_In Hname].
    pose proof (find_none _ _ Hfind _ Ho) as Hne. simpl in Hne.
    apply String.eqb_neq in Hne. done.
Qed.

Lemma retainOrAdopt_same old n o :
  uniqueNames samplingRule old -> o ∈ old ->
  samplingRule n = samplingRule o ->
  retainOrAdopt samplingRule old n = o.
Proof.
  intros Huniq Ho Hrule. unfold retainOrAdopt.
  destruct (List.find _ _) as [o'|] eqn:Hfind.
  - apply find_some in Hfind as [Ho'%list_elem_of_In Hname%String.eqb_eq].
    assert (o' = o) as ->.
    { eapply uniqueNames_inj; eauto. unfold ruleNameOf in *. congruence. }
    by rewrite decide_True.
  - apply list_elem_of_In in Ho.
    pose proof (find_none _ _ Hfind _ Ho) as Hne. simpl in Hne.
    apply String.eqb_neq in Hne. unfold ruleNameOf in Hne. congruence.
Qed.

Lemma retainOrAdopt_fresh old n :
  (forall o, o ∈ old -> samplingRule o <> samplingRule n) ->
  retainOrAdopt samplingRule old n = n.
Proof.
  intros Hfresh. unfold retainOrAdopt.
  destruct (List.find _ _) as [o|] eqn:Hfind; [|done].
  apply find_some in Hfind as [Ho%list_elem_of_In _].
  rewrite decide_False; [done|]. by apply Hfresh.
Qed.

(** [updateRules], loop-free. *)
Lemma updateRules_unfold (this : Cache) news now :
  updateRules samplingRule memberNames equalsUndefined this news now
  = if existsb (raisesOn samplingRule memberNames equalsUndefined
                  (oldRuleAppliersMap samplingRule this)) news
    then None
    else Some {| ruleAppliers :=
                   JsArray.sort (compareRules samplingRule)
                     (adopted samplingRule (oldRuleAppliersMap samplingRule this)
                        <$> news);
                 lastUpdatedEpochMillis := now;
                 samplerResource := samplerResource this |}.
Proof.
  unfold updateRules. rewrite forEach_adoptOrRetain.
  by destruct (existsb _ _).
Qed.

Lemma updateRules_Some (this : Cache) news now this' :
  updateRules samplingRule memberNames equalsUndefined this news now = Some this' ->
  this' = {| ruleAppliers :=
               JsArray.sort (compareRules samplingRule)
                 (adopted samplingRule (oldRuleAppliersMap samplingRule this)
                    <$> news);
             lastUpdatedEpochMillis := now;
             samplerResource := samplerResource this |}.
Proof.
  rewrite updateRules_unfold. destruct (existsb _ _); [done|]. by intros [= <-].
Qed.

(** The refresh raises exactly when the loop raises at an incoming applier. *)
Lemma updateRules_None (this : Cache) news now :
  updateRules samplingRule memberNames equalsUndefined this news now = None
  <-> exists n, n ∈ news
        /\ raisesOn samplingRule memberNames equalsUndefined
             (oldRuleAppliersMap samplingRule this) n = true.
Proof.
  rewrite updateRules_unfold.
  destruct (existsb _ _) eqn:Hex.
  - split; [|done]. intros _. apply existsb_exists in Hex as (n & Hn & Hr).
    exists n. by rewrite list_elem_of_In.
  - split; [done|]. intros (n & Hn%list_elem_of_In & Hr).
    assert (existsb (raisesOn samplingRule memberNames equalsUndefined
                       (oldRuleAppliersMap samplingRule this)) news = true)
      by (apply existsb_exists; eauto).
    congruence.
Qed.

(** It completes when every incoming rule is the rule of an applier of the
    cache. *)
Lemma updateRules_unchanged_is_Some (this : Cache) news now :
  (forall n, n ∈ news ->
     exists o, o ∈ ruleAppliers this /\ samplingRule n = samplingRule o) ->
  is_Some (updateRules samplingRule memberNames equalsUndefined this news now).
Proof.
  intros Hall.
  destruct (updateRules _ _ _ this news now) as [this'|] eqn:Hu; [by eexists|].
  apply updateRules_None in Hu as (n & Hn & Hr%raisesOn_None).
  destruct (Hall n Hn) as (o & Ho & Hrule).
  destruct (oldRuleAppliersMap_is_Some this o Ho) as [o' Ho'].
  unfold ruleNameOf in *. rewrite Hrule in Hr. congruence.
Qed.

(** Every refresh leaves the appliers in (Priority, RuleName) order. *)
Lemma updateRules_inPriorityOrder (this : Cache) news now this' :
  updateRules samplingRule memberNames equalsUndefined this news now = Some this' ->
  inPriorityOrder samplingRule (ruleAppliers this').
Proof. intros ->%updateRules_Some. apply sort_compareRules_sorted. Qed.

Lemma updateRules_Permutation (this : Cache) news now this' :
  uniqueNames samplingRule (ruleAppliers this) ->
  updateRules samplingRule memberNames equalsUndefined this news now = Some this' ->
  ruleAppliers this' ≡ₚ (retainOrAdopt samplingRule (ruleAppliers this) <$> news).
Proof.
  intros Huniq ->%updateRules_Some. simpl.
  rewrite sort_compareRules_Permutation.
  assert (adopted samplingRule (oldRuleAppliersMap samplingRule this) <$> news
          = retainOrAdopt samplingRule (ruleAppliers this) <$> news) as ->; [|done].
  apply list_fmap_ext. intros i n _. by apply adopted_retainOrAdopt.
Qed.

(** Re-applying the rules of [old'], in any order, gives back [old']. *)
Lemma retainOrAdopt_unchanged old news : forall old',
  uniqueNames samplingRule old ->
  (forall o, o ∈ old' -> o ∈ old) ->
  (samplingRule <$> news) ≡ₚ (samplingRule <$> old') ->
  (retainOrAdopt samplingRule old <$> news) ≡ₚ old'.
Proof.
  induction news as [|n news IH]; intros old' Huniq Hsub Hperm.
  { symmetry in Hperm. apply Permutation_nil_r in Hperm.
    by apply fmap_nil_inv in Hperm as ->. }
  assert (samplingRule n ∈ samplingRule <$> old') as Hn
    by (rewrite <- Hperm; left).
  apply list_elem_of_fmap in Hn as (o & Hrule & Ho).
  apply elem_of_Permutation in Ho as [old'' Hold''].
  assert (o ∈ old) as Hold by (apply Hsub; rewrite Hold''; left).
  rewrite fmap_cons, (retainOrAdopt_same old n o) by done.
  rewrite Hold''. constructor. apply IH; [done| |].
  - intros o' Ho'. apply Hsub. rewrite Hold''. by right.
  - rewrite Hold'', !fmap_cons, Hrule in Hperm.
    by apply Permutation_cons_inv in Hperm.
Qed.

(** C2, amended. In a cache whose rule names are unique, a call of
    [updateRules] that completes treats each incoming applier as the spec
    says: an existing applier whose rule is structurally identical is kept,
    with whatever state it has accumulated, and takes the place of the
    incoming one; an incoming applier whose rule differs from every existing
    rule (changed content or new name) is adopted.  If every incoming rule
    is unchanged, no fresh applier enters the cache, and re-applying exactly
    the rules of the cache leaves its appliers as they were.  A call whose
    incoming rules are all unchanged always completes. *)
Theorem updateRules_retains (this : Cache) (news : list SamplingRuleApplier)
    (now : Z) :
  uniqueNames samplingRule (ruleAppliers this) ->
  let old := ruleAppliers this in
  let result := updateRules samplingRule memberNames equalsUndefined this news now in
  (forall this', result = Some this' ->
     ruleAppliers this' ≡ₚ (retainOrAdopt samplingRule old <$> news)
     /\ (forall n o, n ∈ news -> o ∈ old -> samplingRule n = samplingRule o ->
           o ∈ ruleAppliers this')
     /\ (forall n, n ∈ news ->
           (forall o, o ∈ old -> samplingRule o <> samplingRule n) ->
           n ∈ ruleAppliers this')
     /\ ((forall n, n ∈ news ->
            exists o, o ∈ old /\ samplingRule n = samplingRule o) ->
           forall a, a ∈ ruleAppliers this' -> a ∈ old)
     /\ (inPriorityOrder samplingRule old ->
         (samplingRule <$> news) ≡ₚ (samplingRule <$> old) ->
         ruleAppliers this' = old))
  /\ ((forall n, n ∈ news -> exists o, o ∈ old /\ samplingRule n = samplingRule o) ->
      is_Some result).
Proof.
  intros Huniq old result. split; [|apply updateRules_unchanged_is_Some].
  intros this' Hresult.
  pose proof (updateRules_Permutation this news now this' Huniq Hresult) as Hperm.
  fold old in Hperm.
  split; [done|]. split; [|split; [|split]].
  - intros n o Hn Ho Hrule. rewrite Hperm.
    apply list_elem_of_fmap. exists n. split; [|done].
    symmetry. by apply retainOrAdopt_same.
  - intros n Hn Hfresh. rewrite Hperm.
    apply list_elem_of_fmap. exists n. split; [|done].
    symmetry. by apply retainOrAdopt_fresh.
  - intros Hall a Ha. rewrite Hperm in Ha.
    apply list_elem_of_fmap in Ha as (n & -> & Hn).
    destruct (Hall n Hn) as (o & Ho & Hrule).
    by rewrite (retainOrAdopt_same old n o).
  - intros Hsorted Hrules.
    assert (ruleAppliers this' ≡ₚ old) as Hperm'.
    { rewrite Hperm. by apply retainOrAdopt_unchanged. }
    apply (StronglySorted_unique_strong (applierLe samplingRule)); [| |done|done].
    + intros x1 x2 Hx1 Hx2 H12 H21. rewrite Hperm' in Hx1.
      eapply uniqueNames_inj; eauto. by apply applierLe_antisym_name.
    + by eapply updateRules_inPriorityOrder.
Qed.


(** *** [updateTargets] *)

Lemma minStep_intervalOf targetDocuments m a :
  minStep samplingRule withTarget targetDocuments m a
  = match intervalOf samplingRule targetDocuments a, m with
    | None, _ => m
    | Some i, None => Some i
    | Some i, Some m' => Some (Z.min m' i)
    end.
Proof.
  unfold minStep, applyTarget, intervalOf, ruleNameOf, JsObject.get.
  destruct (targetDocuments !! _) as [target|];
    [|by destruct (JsObject.isPrototypeName _)].
  unfold truthy, targetInterval.
  destruct (SamplingTargetDocument.Interval target) as [i|]; [|done].
  destruct (Z.eqb_spec i 0); simpl; [done|].
  destruct m as [m'|]; [|done].
  destruct (Z.gtb_spec m' i); simpl; f_equal; lia.
Qed.

Lemma eligibleInterval_intervalOf (this : Cache) targetDocuments i :
  eligibleInterval samplingRule this targetDocuments i
  <-> exists a, a ∈ ruleAppliers this
                /\ intervalOf samplingRule targetDocuments a = Some i.
Proof.
  unfold eligibleInterval, intervalOf. split.
  - intros (a & target & Ha & Ht & Hint & Hi). exists a. split; [done|].
    rewrite Ht, Hint. by destruct (Z.eqb_spec i 0).
  - intros (a & Ha & Hint). exists a.
    destruct (targetDocuments !! _) as [target|]; [|done].
    exists target. destruct (SamplingTargetDocument.Interval target) as [j|]; [|done].
    destruct (Z.eqb_spec j 0); [done|]. by simplify_eq.
Qed.

(** The loop keeps the least contributed interval. *)
Lemma foldl_minStep targetDocuments l : forall m,
  match foldl (minStep samplingRule withTarget targetDocuments) m l with
  | None =>
      m = None
      /\ forall a, a ∈ l -> intervalOf samplingRule targetDocuments a = None
  | Some x =>
      (m = Some x
       \/ exists a, a ∈ l /\ intervalOf samplingRule targetDocuments a = Some x)
      /\ (forall m', m = Some m' -> x <= m')
      /\ (forall a i, a ∈ l ->
            intervalOf samplingRule targetDocuments a = Some i -> x <= i)
  end.
Proof.
  induction l as [|b l IH]; intros m; simpl.
  { destruct m as [x|].
    - split; [by left|]. split; [by intros ? [= ->]|].
      intros a i Ha. by apply elem_of_nil in Ha.
    - split; [done|]. intros a Ha. by apply elem_of_nil in Ha. }
  specialize (IH (minStep samplingRule withTarget targetDocuments m b)).
  rewrite minStep_intervalOf in IH |- *.
  destruct (foldl _ _ l) as [x|].
  - destruct IH as (Hfrom & Hle & Hmin).
    destruct (intervalOf samplingRule targetDocuments b) as [i|] eqn:Hb.
    + destruct m as [m'|].
      * specialize (Hle _ eq_refl). split; [|split].
        -- destruct Hfrom as [[= Hx]|(a & Ha & Hia)].
           ++ destruct (Z.min_spec m' i) as [[_ Hm]|[_ Hm]]; rewrite Hm in Hx.
              ** left. congruence.
              ** right. exists b. split; [by left|congruence].
           ++ right. exists a. split; [by right|done].
        -- intros ? [= <-]. lia.
        -- intros a j [->|Ha]%elem_of_cons Hj; [|by eapply Hmin].
           assert (j = i) by congruence. lia.
      * specialize (Hle _ eq_refl). split; [|split; [done|]].
        -- right. destruct Hfrom as [[= ->]|(a & Ha & Hia)].
           ++ exists b. split; [by left|done].
           ++ exists a. split; [by right|done].
        -- intros a j [->|Ha]%elem_of_cons Hj; [|by eapply Hmin].
           assert (j = i) by congruence. lia.
    + split; [|split; [done|]].
      * destruct Hfrom as [?|(a & Ha & Hia)]; [by left|].
        right. exists a. split; [by right|done].
      * intros a j [->|Ha]%elem_of_cons Hj; [congruence|by eapply Hmin].
  - destruct IH as [Hm Hnone].
    destruct (intervalOf samplingRule targetDocuments b) as [i|] eqn:Hb.
    { by destruct m. }
    split; [done|]. intros a [->|Ha]%elem_of_cons; [done|by apply Hnone].
Qed.

(** C7. The first component of the result of [updateTargets] is true if
    and only if [lastRuleModification * 1000] exceeds the cache's
    [lastUpdatedEpochMillis]; the received targets play no part in it. *)
Theorem updateTargets_refresh (this : Cache) (targetDocuments : TargetMap)
    (lastRuleModification : Z) :
  (fst (fst (updateTargets samplingRule withTarget this targetDocuments
               lastRuleModification)) = true
   <-> lastRuleModification * 1000 > lastUpdatedEpochMillis this)
  /\ (forall otherTargets : TargetMap,
        fst (fst (updateTargets samplingRule withTarget this otherTargets
                    lastRuleModification))
        = fst (fst (updateTargets samplingRule withTarget this targetDocuments
                      lastRuleModification))).
Proof.
  split.
  - rewrite updateTargets_unfold. simpl. rewrite Z.gtb_gt. reflexivity.
  - intros otherTargets. by rewrite !updateTargets_unfold.
Qed.

(** C8, amended. The next polling interval returned by [updateTargets] is
    the least non-zero [Interval] among the received targets whose rule name
    is that of an applier in the cache, and the default of 10 seconds when
    there is no such target. *)
Theorem updateTargets_interval (this : Cache) (targetDocuments : TargetMap)
    (lastRuleModification : Z) :
  let next :=
    snd (fst (updateTargets samplingRule withTarget this targetDocuments
                lastRuleModification)) in
  ((forall i, ~ eligibleInterval samplingRule this targetDocuments i) ->
     next = DEFAULT_TARGET_POLLING_INTERVAL_SECONDS)
  /\ ((exists i, eligibleInterval samplingRule this targetDocuments i) ->
        eligibleInterval samplingRule this targetDocuments next
        /\ forall i, eligibleInterval samplingRule this targetDocuments i -> next <= i).
Proof.
  cbv zeta. rewrite updateTargets_unfold. cbv zeta. simpl snd.
  pose proof (foldl_minStep targetDocuments (ruleAppliers this) None) as Hmin.
  destruct (foldl _ _ _) as [x|].
  - destruct Hmin as ([[=]|(a & Ha & Hia)] & _ & Hle).
    assert (x <> 0) as Hx.
    { unfold intervalOf in Hia. destruct (targetDocuments !! _); [|done].
      destruct (SamplingTargetDocument.Interval _) as [j|]; [|done].
      destruct (Z.eqb_spec j 0); [done|]. congruence. }
    assert (truthy (Some x) = true) as ->
      by (simpl; by destruct (Z.eqb_spec x 0)).
    simpl. split.
    + intros Hnone. destruct (Hnone x). apply eligibleInterval_intervalOf. eauto.
    + intros _. split; [apply eligibleInterval_intervalOf; eauto|].
      intros i (b & Hb & Hib)%eligibleInterval_intervalOf. eauto.
  - destruct Hmin as [_ Hnone]. simpl. split; [done|].
    intros (i & (a & Ha & Hia)%eligibleInterval_intervalOf).
    rewrite Hnone in Hia by done. done.
Qed.


(** Applying targets keeps the order, as long as [withTarget] keeps the
    rule of the applier, as the spec says it does. *)
Lemma updateTargets_inPriorityOrder (this : Cache) targetDocuments lastRuleModification :
  (forall a target, samplingRule (withTarget a target) = samplingRule a) ->
  inPriorityOrder samplingRule (ruleAppliers this) ->
  inPriorityOrder samplingRule
    (ruleAppliers (snd (updateTargets samplingRule withTarget this targetDocuments
                          lastRuleModification))).
Proof.
  intros Hrule. rewrite updateTargets_unfold. cbv zeta. simpl.
  assert (forall a, samplingRule (retargeted samplingRule withTarget targetDocuments a)
                    = samplingRule a) as Hsame.
  { intros a. unfold retargeted. by destruct (JsObject.get targetDocuments _). }
  unfold inPriorityOrder. induction 1 as [|a l _ IH Hall]; [constructor|].
  rewrite fmap_cons. constructor; [done|].
  apply Forall_fmap. eapply Forall_impl; [exact Hall|].
  intros b Hab. unfold applierLe, compose. by rewrite !Hsame.
Qed.


(** Every cache a sampler can hold is in (Priority, RuleName) order. *)
Lemma reachable_inPriorityOrder (this : Cache) :
  (forall a target, samplingRule (withTarget a target) = samplingRule a) ->
  reachable samplingRule withTarget memberNames equalsUndefined this ->
  inPriorityOrder samplingRule (ruleAppliers this).
Proof.
  intros Hrule.
  induction 1 as [|this news now this' _ _ Hu
                  |this targetDocuments lastRuleModification _ IH].
  - constructor.
  - by eapply updateRules_inPriorityOrder.
  - by apply updateTargets_inPriorityOrder.
Qed.

End RuleCacheFacts.

(** ** [FallbackSampler] *)

Section FallbackSamplerFacts.

Context {Context_ SpanKind Link : Type}.
Context {TraceIdRatioBasedSampler RateLimitingSampler : Type}.
Variable TraceIdRatioBasedSampler_new : Qcanon.Qc -> TraceIdRatioBasedSampler.
Variable TraceIdRatioBasedSampler_shouldSample :
  TraceIdRatioBasedSampler -> Context_ -> string -> SamplingResult.
Variable RateLimitingSampler_new : Z -> RateLimitingSampler.
Variable RateLimitingSampler_shouldSample :
  RateLimitingSampler -> Z ->
  Context_ -> string -> string -> SpanKind -> Attributes -> list Link ->
  SamplingResult * RateLimitingSampler.

Local Abbreviation Sampler :=
  (@FallbackSampler TraceIdRatioBasedSampler RateLimitingSampler).
Local Abbreviation shouldSample :=
  (FallbackSampler_shouldSample TraceIdRatioBasedSampler_shouldSample
     RateLimitingSampler_shouldSample).
Local Abbreviation run :=
  (FallbackSampler_run TraceIdRatioBasedSampler_shouldSample
     RateLimitingSampler_shouldSample).
Local Abbreviation limit :=
  (fun (l : RateLimitingSampler) (rq : @Request Context_ SpanKind Link) =>
     RateLimitingSampler_shouldSample l (req_now rq) (req_context rq)
       (req_traceId rq) (req_spanName rq) (req_spanKind rq)
       (req_attributes rq) (req_links rq)).

(** One call, in terms of the two collaborators. *)
Lemma shouldSample_unfold (this : Sampler) rq :
  shouldSample this rq
  = (if decide (decision (fst (limit (rateLimitingSampler this) rq)) = NOT_RECORD)
     then TraceIdRatioBasedSampler_shouldSample (fixedRateSampler this)
            (req_context rq) (req_traceId rq)
     else fst (limit (rateLimitingSampler this) rq),
     {| fixedRateSampler := fixedRateSampler this;
        rateLimitingSampler := snd (limit (rateLimitingSampler this) rq) |}).
Proof.
  unfold FallbackSampler_shouldSample.
  destruct (RateLimitingSampler_shouldSample _ _ _ _ _ _ _ _) as [res l].
  simpl. by destruct (decide (decision res = NOT_RECORD));
    [rewrite bool_decide_true|rewrite bool_decide_false].
Qed.

(** Calls never replace the fixed-rate sampler, and drive the limiter as
    if it were called on its own. *)
Lemma run_invariant rqs : forall this : Sampler,
  fixedRateSampler (run this rqs) = fixedRateSampler this
  /\ rateLimitingSampler (run this rqs)
     = RateLimitingSampler_run RateLimitingSampler_shouldSample
         (rateLimitingSampler this) rqs.
Proof.
  induction rqs as [|rq rqs IH]; intros this; [done|].
  unfold FallbackSampler_run, RateLimitingSampler_run. simpl.
  fold (run (snd (shouldSample this rq)) rqs).
  destruct (IH (snd (shouldSample this rq))) as [-> ->].
  rewrite shouldSample_unfold. done.
Qed.

(** C9. Whatever calls came before, [shouldSample] returns the result of
    the rate limiting sampler, built with a cap of 1 per second, when that
    result is a recording decision, and otherwise the result of the
    trace-id-ratio sampler built with ratio 0.05, asked with the context
    and the trace id alone. *)
Theorem FallbackSampler_shouldSample_spec
    (rqs : list (@Request Context_ SpanKind Link)) (rq : @Request Context_ SpanKind Link) :
  let this :=
    run (FallbackSampler_new TraceIdRatioBasedSampler_new RateLimitingSampler_new) rqs in
  let limiter :=
    RateLimitingSampler_run RateLimitingSampler_shouldSample
      (RateLimitingSampler_new 1) rqs in
  let limited := fst (limit limiter rq) in
  let result := fst (shouldSample this rq) in
  (decision limited <> NOT_RECORD -> result = limited)
  /\ (decision limited = NOT_RECORD ->
      result = TraceIdRatioBasedSampler_shouldSample
                 (TraceIdRatioBasedSampler_new (Qcanon.Q2Qc (QArith_base.Qmake 5 100)))
                 (req_context rq) (req_traceId rq)).
Proof.
  cbv zeta. rewrite shouldSample_unfold. simpl fst.
  destruct (run_invariant rqs
              (FallbackSampler_new TraceIdRatioBasedSampler_new RateLimitingSampler_new))
    as [-> ->].
  simpl. split; intros Hdec.
  - by rewrite decide_False.
  - by rewrite decide_True.
Qed.

End FallbackSamplerFacts.

(** ** The theorems at work on the reference collaborators *)

Module ExampleFacts.
Import Examples.

Local Open Scope list_scope.

Local Abbreviation rules := ReferenceApplier.samplingRule.
Local Abbreviation matches := ReferenceApplier.matches.
Local Abbreviation withTarget := ReferenceApplier.withTarget.

Local Abbreviation members := ReferenceApplier.memberNames.
Local Abbreviation onUndefined := ReferenceApplier.equalsUndefined.

Lemma cacheDefaultFirst_appliers :
  ruleAppliers cacheDefaultFirst = [defaultFirst; anyRequest].
Proof. reflexivity. Qed.

Lemma cacheDefaultFirst_refreshed :
  updateRules rules members onUndefined (RuleCache_new tt 0)
    [anyRequest; defaultFirst] 1
  = Some cacheDefaultFirst.
Proof. vm_compute. reflexivity. Qed.

Lemma cacheUsual_appliers :
  ruleAppliers cacheUsual = [checkout; defaultLastApplier].
Proof. reflexivity. Qed.

Lemma cacheUsual_refreshed :
  updateRules rules members onUndefined (RuleCache_new tt 0)
    [defaultLastApplier; checkout] 1
  = Some cacheUsual.
Proof. vm_compute. reflexivity. Qed.

Lemma cacheUsual_inPriorityOrder : inPriorityOrder rules (ruleAppliers cacheUsual).
Proof. eapply updateRules_inPriorityOrder, cacheUsual_refreshed. Qed.

Lemma cacheUsual_uniqueNames : uniqueNames rules (ruleAppliers cacheUsual).
Proof.
  unfold uniqueNames. rewrite cacheUsual_appliers. simpl.
  apply NoDup_cons. split; [|apply NoDup_singleton].
  intros Hin%list_elem_of_singleton. discriminate Hin.
Qed.

Lemma checkout_before_default :
  applierLe rules checkout defaultLastApplier
  /\ ~ applierLe rules defaultLastApplier checkout.
Proof.
  unfold applierLe, ruleLe. simpl. split; [left; lia|].
  intros [?|[? _]]; lia.
Qed.

Lemma cacheUsual_defaultLast : defaultLast rules (ruleAppliers cacheUsual).
Proof.
  unfold defaultLast. rewrite cacheUsual_appliers.
  intros d b Hd Hb Hdd Hndb.
  apply elem_of_cons in Hd as [->|Hd]; [discriminate Hdd|].
  apply list_elem_of_singleton in Hd as ->.
  apply elem_of_cons in Hb as [->|Hb]; [apply checkout_before_default|].
  apply list_elem_of_singleton in Hb as ->. by destruct Hndb.
Qed.

Lemma cacheInUse_uniqueNames : uniqueNames rules (ruleAppliers cacheInUse).
Proof.
  unfold uniqueNames. simpl.
  apply NoDup_cons. split; [|apply NoDup_singleton].
  intros Hin%list_elem_of_singleton. discriminate Hin.
Qed.

Lemma cacheInUse_inPriorityOrder : inPriorityOrder rules (ruleAppliers cacheInUse).
Proof.
  unfold inPriorityOrder. simpl. repeat constructor.
Qed.

End ExampleFacts.

(** C1, as stated, fails.  After a refresh with a rule named "Default" of
    priority 1 that asks for an attribute, and a rule "any" of priority 2
    without conditions, the appliers are in order and a request without
    attributes satisfies "any" only; the lookup returns the default applier
    all the same, whose predicate is not satisfied. *)
Lemma getMatchedRule_default_preferred :
  let this := Examples.cacheDefaultFirst in
  let result :=
    getMatchedRule ReferenceApplier.samplingRule ReferenceApplier.matches this ∅ in
  updateRules ReferenceApplier.samplingRule ReferenceApplier.memberNames
    ReferenceApplier.equalsUndefined (RuleCache_new tt 0)
    [Examples.anyRequest; Examples.defaultFirst] 1 = Some this
  /\ inPriorityOrder ReferenceApplier.samplingRule (ruleAppliers this)
  /\ lowestAmong ReferenceApplier.samplingRule
       (satisfied ReferenceApplier.matches this ∅) (ruleAppliers this)
       Examples.anyRequest
  /\ ~ satisfied ReferenceApplier.matches this ∅ Examples.defaultFirst
  /\ result = Some Examples.defaultFirst
  /\ ~ lowestSatisfiedElseDefault ReferenceApplier.samplingRule ReferenceApplier.matches
         this ∅ result.
Proof.
  cbv zeta.
  assert (getMatchedRule ReferenceApplier.samplingRule ReferenceApplier.matches
            Examples.cacheDefaultFirst ∅ = Some Examples.defaultFirst) as Hres
    by (vm_compute; reflexivity).
  assert (lowestAmong ReferenceApplier.samplingRule
            (satisfied ReferenceApplier.matches Examples.cacheDefaultFirst ∅)
            (ruleAppliers Examples.cacheDefaultFirst) Examples.anyRequest) as Hlow.
  { rewrite ExampleFacts.cacheDefaultFirst_appliers.
    split; [right; left|]. split; [reflexivity|].
    intros b [->|Hb]%elem_of_cons Hsat; [discriminate Hsat|].
    apply list_elem_of_singleton in Hb as ->. apply applierLe_refl. }
  split; [apply ExampleFacts.cacheDefaultFirst_refreshed|].
  split; [eapply updateRules_inPriorityOrder, ExampleFacts.cacheDefaultFirst_refreshed|].
  split; [exact Hlow|]. split; [discriminate|]. split; [exact Hres|].
  rewrite Hres. intros [Hfirst _].
  destruct Hfirst as (a & [= <-] & _ & Hsat & _).
  - exists Examples.anyRequest. split; [apply Hlow|apply Hlow].
  - discriminate Hsat.
Qed.

Lemma getMatchedRule_lowest_witness :
  lowestSatisfiedElseDefault ReferenceApplier.samplingRule ReferenceApplier.matches
    Examples.cacheUsual {["abc" := Some (AString "1234")]}
    (getMatchedRule ReferenceApplier.samplingRule ReferenceApplier.matches
       Examples.cacheUsual {["abc" := Some (AString "1234")]}).
Proof.
  apply getMatchedRule_lowest.
  - apply ExampleFacts.cacheUsual_inPriorityOrder.
  - apply ExampleFacts.cacheUsual_uniqueNames.
  - apply ExampleFacts.cacheUsual_defaultLast.
Defined.

(** C2, as stated, fails.  A cache can hold two appliers of one rule name,
    as a refresh with two such rules leaves it; the dictionary of
    [updateRules] then holds the later one only.  An incoming rule that is
    structurally identical to the rule of the earlier applier, and of the
    same name, is not replaced by that old applier: the fresh applier is
    adopted, and the decisions the old one has counted are gone. *)
Lemma updateRules_duplicate_names :
  let this := Examples.cacheTwins in
  let old := ruleAppliers this in
  let fresh := ReferenceApplier.create (Examples.rule "twin" 1 None) in
  let refresh :=
    updateRules ReferenceApplier.samplingRule ReferenceApplier.memberNames
      ReferenceApplier.equalsUndefined in
  refresh (RuleCache_new tt 0) [fresh; Examples.twinSecond] 1
  = Some {| ruleAppliers := [fresh; Examples.twinSecond];
            lastUpdatedEpochMillis := 1;
            samplerResource := tt |}
  /\ (forall n, n ∈ [fresh] ->
        exists o, o ∈ old
          /\ ruleNameOf ReferenceApplier.samplingRule o
             = ruleNameOf ReferenceApplier.samplingRule n
          /\ ReferenceApplier.samplingRule o = ReferenceApplier.samplingRule n)
  /\ refresh this [fresh] 2
     = Some {| ruleAppliers := [fresh];
               lastUpdatedEpochMillis := 2;
               samplerResource := tt |}
  /\ ReferenceApplier.statistics Examples.twinFirst
     = ReferenceApplier.mkStatistics 7 3 1
  /\ ReferenceApplier.statistics fresh = ReferenceApplier.mkStatistics 0 0 0
  /\ ~ Examples.twinFirst ∈ [fresh]
  /\ ~ (forall a, a ∈ [fresh] -> a ∈ old).
Proof.
  cbv zeta. split; [vm_compute; reflexivity|]. split.
  { intros n ->%list_elem_of_singleton. exists Examples.twinFirst.
    split; [left|]. split; reflexivity. }
  split; [vm_compute; reflexivity|]. split; [reflexivity|]. split; [reflexivity|].
  split; [intros Hin%list_elem_of_singleton; discriminate Hin|].
  intros Hall. specialize (Hall _ (list_elem_of_here _ _)).
  apply elem_of_cons in Hall as [Heq|Hall]; [discriminate Heq|].
  apply list_elem_of_singleton in Hall. discriminate Hall.
Qed.

Lemma updateRules_retains_witness :
  let result :=
    updateRules ReferenceApplier.samplingRule ReferenceApplier.memberNames
      ReferenceApplier.equalsUndefined Examples.cacheInUse
      [Examples.defaultLastApplier; Examples.checkout] 5 in
  is_Some result
  /\ forall this', result = Some this' ->
       ruleAppliers this' = ruleAppliers Examples.cacheInUse.
Proof.
  cbv zeta.
  pose proof (updateRules_retains ReferenceApplier.samplingRule
                ReferenceApplier.memberNames ReferenceApplier.equalsUndefined
                Examples.cacheInUse [Examples.defaultLastApplier; Examples.checkout] 5
                ExampleFacts.cacheInUse_uniqueNames) as [Hretain Hcompletes].
  split.
  - apply Hcompletes. intros n [->|Hn]%elem_of_cons.
    + exists Examples.defaultLastApplier. split; [right; left|reflexivity].
    + apply list_elem_of_singleton in Hn as ->.
      exists (ReferenceApplier.counted Examples.checkout 7 3 1).
      split; [left|reflexivity].
  - intros this' Hresult. apply (Hretain this' Hresult).
    + apply ExampleFacts.cacheInUse_inPriorityOrder.
    + simpl. apply Permutation_swap.
Defined.

(** C8, as stated, fails.  A received target whose rule has no applier in
    the cache does not count: with a single such target of [Interval] 5 the
    next polling interval is the default. *)
Lemma updateTargets_interval_unmatched :
  ~ (forall (this : @RuleCache ReferenceApplier.t unit) (targetDocuments : TargetMap)
            (lastRuleModification i : Z),
        minReceivedInterval targetDocuments i ->
        snd (fst (updateTargets ReferenceApplier.samplingRule ReferenceApplier.withTarget
                    this targetDocuments lastRuleModification)) = i).
Proof.
  intros H.
  specialize (H Examples.cacheInUse {["gone" := Examples.target "gone" (Some 5)]} 0 5).
  assert (snd (fst (updateTargets ReferenceApplier.samplingRule ReferenceApplier.withTarget
                      Examples.cacheInUse
                      {["gone" := Examples.target "gone" (Some 5)]} 0)) = 10) as Hten
    by (vm_compute; reflexivity).
  rewrite Hten in H. enough (10 = 5) by lia. apply H. split.
  - exists "gone", (Examples.target "gone" (Some 5)).
    split; [apply lookup_singleton_eq|reflexivity].
  - intros name target j [<- <-]%lookup_singleton_Some [= <-]. lia.
Qed.

Lemma updateTargets_interval_witness :
  let targetDocuments : TargetMap :=
    {["checkout" := Examples.target "checkout" (Some 30);
      "Default" := Examples.target "Default" (Some 20);
      "gone" := Examples.target "gone" (Some 5)]} in
  let next :=
    snd (fst (updateTargets ReferenceApplier.samplingRule ReferenceApplier.withTarget
                Examples.cacheInUse targetDocuments 0)) in
  eligibleInterval ReferenceApplier.samplingRule Examples.cacheInUse targetDocuments next
  /\ forall i,
       eligibleInterval ReferenceApplier.samplingRule Examples.cacheInUse targetDocuments i ->
       next <= i.
Proof.
  cbv zeta.
  apply (proj2 (updateTargets_interval ReferenceApplier.samplingRule
                  ReferenceApplier.withTarget Examples.cacheInUse _ 0)).
  exists 30, (ReferenceApplier.counted Examples.checkout 7 3 1),
    (Examples.target "checkout" (Some 30)).
  split; [left|]. split; [vm_compute; reflexivity|]. split; [reflexivity|lia].
Defined.

Example updateTargets_interval_example :
  snd (fst (updateTargets ReferenceApplier.samplingRule ReferenceApplier.withTarget
              Examples.cacheInUse
              {["checkout" := Examples.target "checkout" (Some 30);
                "Default" := Examples.target "Default" (Some 20);
                "gone" := Examples.target "gone" (Some 5)]} 0)) = 20.
Proof. vm_compute. reflexivity. Qed.


Lemma FallbackSampler_shouldSample_spec_witness :
  let rqs := [ReferenceSamplers.request 1000 "0af7651916cd43dd8448eb211c80319c"] in
  let rq := ReferenceSamplers.request 1500 "0af7651916cd43dd8448eb211c80319d" in
  fst (FallbackSampler_shouldSample ReferenceSamplers.Ratio_shouldSample
         ReferenceSamplers.Limiter_shouldSample
         (FallbackSampler_run ReferenceSamplers.Ratio_shouldSample
            ReferenceSamplers.Limiter_shouldSample
            (FallbackSampler_new ReferenceSamplers.Ratio_new ReferenceSamplers.Limiter_new)
            rqs) rq)
  = ReferenceSamplers.Ratio_shouldSample
      (ReferenceSamplers.Ratio_new (Qcanon.Q2Qc (QArith_base.Qmake 5 100)))
      tt "0af7651916cd43dd8448eb211c80319d".
Proof.
  cbv zeta.
  apply (FallbackSampler_shouldSample_spec ReferenceSamplers.Ratio_new
           ReferenceSamplers.Ratio_shouldSample ReferenceSamplers.Limiter_new
           ReferenceSamplers.Limiter_shouldSample).
  vm_compute. reflexivity.
Defined.

(** ** Sample evaluations *)

Example convertPatternToRegExp_ex :
  convertPatternToRegExp "a.b*c?d\e" = "a\.b.*c.d\\e".
Proof. reflexivity. Qed.

Example wildcardMatch_question_star :
  wildcardMatch (Some "a?c*") (Some (AString "ABCdef")) = true.
Proof. vm_compute. reflexivity. Qed.

Example wildcardMatch_dot_is_literal :
  wildcardMatch (Some "a.c") (Some (AString "abc")) = false
  /\ wildcardMatch (Some "a.c") (Some (AString "A.C")) = true.
Proof. split; vm_compute; reflexivity. Qed.

Example wildcardMatch_star_stops_at_newline :
  wildcardMatch (Some "a*") (Some (AString (String "a" (String "010" "b")))) = false.
Proof. vm_compute. reflexivity. Qed.

Example wildcardMatch_absent_pattern :
  wildcardMatch None (Some (AString "abc")) = false.
Proof. reflexivity. Qed.

Example attributeMatch_partial :
  attributeMatch
    (Some {["abc" := Some (AString "1234"); "other" := Some (ANumber 1)]})
    (Some {["abc" := "12*"; "def" := "*"]}) = false.
Proof. vm_compute. reflexivity. Qed.

Example attributeMatch_star_accepts_number :
  attributeMatch
    (Some {["abc" := Some (AString "1234"); "def" := Some (ANumber 1)]})
    (Some {["abc" := "12*"; "def" := "*"]}) = true.
Proof. vm_compute. reflexivity. Qed.

Example toLowerCase_latin1 :
  JsString.toLowerCase (String "201" (String "215" (String "222" "Az9")))
  = String "233" (String "215" (String "254" "az9"))
  /\ JsString.toLowerCase (String "181" (String "223" (String "255" "")))
     = String "181" (String "223" (String "255" "")).
Proof. split; reflexivity. Qed.

Example wildcardMatch_latin1 :
  wildcardMatch (Some (String "201" "t?")) (Some (AString (String "233" "TE"))) = true
  /\ wildcardMatch (Some (String "215" "")) (Some (AString (String "247" ""))) = false.
Proof. split; vm_compute; reflexivity. Qed.

Example sort_keeps_ties_in_place :
  JsArray.sort (fun _ _ : Z => 1) [1; 2; 3]%list = [1; 2; 3]%list
  /\ JsArray.sort (fun a b : Z => a - b) [3; 1; 2]%list = [1; 2; 3]%list.
Proof. split; reflexivity. Qed.

Example updateRules_sorts :
  (fun this => SamplingRule.RuleName <$>
                 (ReferenceApplier.samplingRule <$> ruleAppliers this)) <$>
    updateRules ReferenceApplier.samplingRule ReferenceApplier.memberNames
      ReferenceApplier.equalsUndefined (RuleCache_new tt 0)
      [ReferenceApplier.create (Examples.rule "b" 2 None);
       ReferenceApplier.create (Examples.rule "Default" 10000 None);
       ReferenceApplier.create (Examples.rule "c" 1 None);
       ReferenceApplier.create (Examples.rule "a" 2 None)] 7
  = Some ["c"; "a"; "b"; "Default"]%list.
Proof. vm_compute. reflexivity. Qed.

Example updateRules_keeps_statistics :
  (fun this => ReferenceApplier.statistics <$> ruleAppliers this) <$>
    updateRules ReferenceApplier.samplingRule ReferenceApplier.memberNames
      ReferenceApplier.equalsUndefined Examples.cacheInUse
      [Examples.defaultLastApplier;
       ReferenceApplier.create (Examples.rule "checkout" 1 (Some {["abc" := "12*"]}))] 5
  = Some [ReferenceApplier.mkStatistics 7 3 1; ReferenceApplier.mkStatistics 0 0 0]%list.
Proof. vm_compute. reflexivity. Qed.

Example updateRules_resets_changed_rule :
  (fun this => ReferenceApplier.statistics <$> ruleAppliers this) <$>
    updateRules ReferenceApplier.samplingRule ReferenceApplier.memberNames
      ReferenceApplier.equalsUndefined Examples.cacheInUse
      [Examples.defaultLastApplier;
       ReferenceApplier.create (Examples.rule "checkout" 1 (Some {["abc" := "13*"]}))] 5
  = Some [ReferenceApplier.mkStatistics 0 0 0; ReferenceApplier.mkStatistics 0 0 0]%list.
Proof. vm_compute. reflexivity. Qed.

(** An incoming rule named like a member of every plain object is found
    [in] the dictionary of an empty cache; [equals] is then handed
    [undefined]. *)
Example updateRules_inherited_name :
  updateRules ReferenceApplier.samplingRule ReferenceApplier.memberNames
    ReferenceApplier.equalsUndefined (RuleCache_new tt 0)
    [ReferenceApplier.create (Examples.rule "toString" 1 None)] 7 = None
  /\ is_Some
       (updateRules ReferenceApplier.samplingRule ReferenceApplier.memberNames
          (fun _ => SamplingRule.AnswersFalse) (RuleCache_new tt 0)
          [ReferenceApplier.create (Examples.rule "toString" 1 None)] 7)
  /\ is_Some
       (updateRules ReferenceApplier.samplingRule ReferenceApplier.memberNames
          ReferenceApplier.equalsUndefined Examples.cacheConstructor
          [ReferenceApplier.create (Examples.rule "constructor" 1 None)] 7).
Proof. split; [vm_compute; reflexivity|]. split; vm_compute; by eexists. Qed.

Example isExpired_after_one_hour :
  isExpired Examples.cacheInUse 3600001 = false
  /\ isExpired Examples.cacheInUse 3600002 = true.
Proof. split; reflexivity. Qed.


(** * Further properties *)

(** ** Wildcard patterns as globs *)

Module GlobFacts.
Import JsString JsStringFacts RegExp RegExpFacts.

Lemma Glob_empty_inv text : Glob "" text -> text = "".
Proof. by inversion 1. Qed.

Lemma termsOfPattern_cons c p :
  termsOfPattern (String c p) = (termOfChar c :: termsOfPattern p)%list.
Proof. reflexivity. Qed.

Lemma matchHere_star r text atStart :
  matchHere (AnyStar :: r) text atStart
  = match text with
    | EmptyString => matchHere r text atStart
    | String d text' =>
        (negb (isLineTerminator d) && matchHere (AnyStar :: r) text' false)
        || matchHere r text atStart
    end.
Proof. destruct text; reflexivity. Qed.

Lemma matchHere_any r text atStart :
  matchHere (Any :: r) text atStart
  = match text with
    | EmptyString => false
    | String d text' => negb (isLineTerminator d) && matchHere r text' false
    end.
Proof. reflexivity. Qed.

Lemma matchHere_lit c r text atStart :
  matchHere (Lit c :: r) text atStart
  = match text with
    | EmptyString => false
    | String d text' => Ascii.eqb d c && matchHere r text' false
    end.
Proof. reflexivity. Qed.

(** The compiled pattern, anchored at its end, accepts the texts the glob
    denotes. *)
Lemma matchHere_Glob p : forall text atStart,
  matchHere (termsOfPattern p ++ [AssertEnd])%list text atStart = true
  <-> Glob p text.
Proof.
  induction p as [|c p IH]; intros text atStart.
  { destruct text; simpl; split; try done; [constructor|by inversion 1]. }
  rewrite termsOfPattern_cons. unfold termOfChar.
  destruct (Ascii.eqb_spec c "*") as [->|Hstar].
  - (* [*] *)
    revert atStart. induction text as [|d text IHt]; intros atStart.
    + change (matchHere (termsOfPattern p ++ [AssertEnd])%list "" atStart = true
              <-> Glob (String "*" p) "").
      rewrite IH. split; [by constructor|].
      inversion 1; subst; try done.
    + rewrite <- app_comm_cons, matchHere_star.
      rewrite orb_true_iff, andb_true_iff, negb_true_iff.
      rewrite app_comm_cons, IHt, IH. split.
      * intros [[Hd Hg]|Hg]; [by apply Glob_star_more|by apply Glob_star_done].
      * inversion 1; subst; try done; [by right|by left].
  - destruct (Ascii.eqb_spec c "?") as [->|Hone].
    + (* [?] *)
      rewrite <- app_comm_cons, matchHere_any.
      destruct text as [|d text]; [split; [done|by inversion 1]|].
      rewrite andb_true_iff, negb_true_iff, IH. split.
      * intros [Hd Hg]. by apply Glob_one.
      * inversion 1; subst; try done.
    + (* a literal character *)
      rewrite <- app_comm_cons, matchHere_lit.
      destruct text as [|d text]; [split; [done|by inversion 1]|].
      rewrite andb_true_iff, Ascii.eqb_eq, IH. split.
      * intros [-> Hg]. apply Glob_char; [by apply Ascii.eqb_neq..|done].
      * inversion 1; subst; done.
Qed.

Lemma toLowerCase_empty s : toLowerCase s = "" <-> s = "".
Proof. destruct s; simpl; split; congruence. Qed.

Lemma toLowerCase_star s : toLowerCase s = "*" <-> s = "*".
Proof.
  split; [|by intros ->].
  destruct s as [|c [|? ?]]; try discriminate.
  rewrite toLowerCase_cons. intros [= Hc].
  assert (Ascii.eqb (lowerChar c) "*" = true) as Heq by (by apply Ascii.eqb_eq).
  rewrite lowerChar_eqb_star in Heq. by apply Ascii.eqb_eq in Heq as ->.
Qed.

(** [wildcardMatch] on a string value, for every pattern but ["*"]. *)
Lemma wildcardMatch_Glob pattern text :
  pattern <> "*" ->
  wildcardMatch (Some pattern) (Some (AString text)) = true
  <-> Glob (toLowerCase pattern) (toLowerCase text).
Proof.
  intros Hstar. destruct (decide (pattern = "")) as [->|Hne].
  - unfold wildcardMatch. simpl. rewrite length_zero. split.
    + intros ->. constructor.
    + intros Hg%Glob_empty_inv. by apply toLowerCase_empty.
  - rewrite wildcardMatch_string by done. apply matchHere_Glob.
Qed.

Lemma Glob_refl s : Glob s s.
Proof.
  induction s as [|c s IH]; [constructor|].
  destruct (Ascii.eqb_spec c "*") as [->|Hstar].
  { apply Glob_star_more; [reflexivity|]. by apply Glob_star_done. }
  destruct (Ascii.eqb_spec c "?") as [->|Hone].
  { by apply Glob_one. }
  apply Glob_char; [by apply Ascii.eqb_neq..|done].
Qed.

Lemma contains_app c s1 s2 : contains c (s1 ++ s2) = contains c s1 || contains c s2.
Proof.
  induction s1 as [|d s1 IH]; [reflexivity|].
  rewrite app_cons, !contains_cons, IH. by rewrite orb_assoc.
Qed.

(** A line terminator of the text has to be spelled out in the pattern. *)
Lemma Glob_line_terminator p text c :
  Glob p text -> isLineTerminator c = true ->
  contains c text = true -> contains c p = true.
Proof.
  intros Hg Hc. induction Hg as [|e p text He1 He2 Hg IH|d p text Hd Hg IH
                                  |p text Hg IH|d p text Hd Hg IH];
    rewrite ?contains_cons; intros Hin; try done.
  - apply orb_true_iff in Hin as [Hin|Hin]; apply orb_true_iff; auto.
  - apply orb_true_iff in Hin as [Hin|Hin]; apply orb_true_iff; [|auto].
    apply Ascii.eqb_eq in Hin as ->. congruence.
  - apply orb_true_iff. right. auto.
  - apply orb_true_iff in Hin as [Hin|Hin]; [|by apply IH].
    apply Ascii.eqb_eq in Hin as ->. congruence.
Qed.

Lemma lineTerminator_lowerChar c d :
  isLineTerminator c = true -> Ascii.eqb c (lowerChar d) = Ascii.eqb c d.
Proof.
  unfold isLineTerminator. intros [->%Ascii.eqb_eq| ->%Ascii.eqb_eq]%orb_true_iff;
    destruct d as [[] [] [] [] [] [] [] []]; reflexivity.
Qed.

Lemma contains_toLowerCase_lineTerminator c s :
  isLineTerminator c = true -> contains c (toLowerCase s) = contains c s.
Proof.
  intros Hc. induction s as [|d s IH]; [reflexivity|].
  by rewrite toLowerCase_cons, !contains_cons, IH, lineTerminator_lowerChar.
Qed.





Lemma lowerChar_lineTerminator c :
  isLineTerminator (lowerChar c) = isLineTerminator c.
Proof. destruct c as [[] [] [] [] [] [] [] []]; reflexivity. Qed.

Lemma toLowerCase_cons_inv s c rest :
  toLowerCase s = String c rest ->
  exists d s', s = String d s' /\ lowerChar d = c /\ toLowerCase s' = rest.
Proof.
  destruct s as [|d s']; [discriminate|].
  rewrite toLowerCase_cons. intros [= <- <-]. by exists d, s'.
Qed.

Lemma lowerChar_star c : lowerChar c = "*"%char -> c = "*"%char.
Proof.
  intros H. apply Ascii.eqb_eq. rewrite <- lowerChar_eqb_star. by apply Ascii.eqb_eq.
Qed.

Lemma lowerChar_question c : lowerChar c = "?"%char -> c = "?"%char.
Proof.
  intros H. apply Ascii.eqb_eq. rewrite <- lowerChar_eqb_question.
  by apply Ascii.eqb_eq.
Qed.

(** Reading a pattern without regard to case is reading the lower-cased
    pattern against the lower-cased text. *)
Lemma GlobIgnoreCase_lower p text :
  GlobIgnoreCase p text -> Glob (toLowerCase p) (toLowerCase text).
Proof.
  induction 1 as [|c d p text Hs Hq Hcd Hg IH|d p text Hd Hg IH
                  |p text Hg IH|d p text Hd Hg IH];
    rewrite ?toLowerCase_cons in *.
  - constructor.
  - rewrite sameLetter_lowerChar in Hcd. apply Ascii.eqb_eq in Hcd as <-.
    apply Glob_char; [by rewrite lowerChar_eqb_star
                     |by rewrite lowerChar_eqb_question|done].
  - apply (Glob_one (lowerChar d)); [by rewrite lowerChar_lineTerminator|done].
  - by apply Glob_star_done.
  - apply (Glob_star_more (lowerChar d));
      [by rewrite lowerChar_lineTerminator|done].
Qed.

Lemma Glob_lower_inv p' text' :
  Glob p' text' ->
  forall p text, toLowerCase p = p' -> toLowerCase text = text' ->
  GlobIgnoreCase p text.
Proof.
  induction 1 as [|c p' text' Hs Hq Hg IH|d p' text' Hd Hg IH
                  |p' text' Hg IH|d p' text' Hd Hg IH];
    intros p text Hp Ht.
  - apply toLowerCase_empty in Hp as ->. apply toLowerCase_empty in Ht as ->.
    constructor.
  - apply toLowerCase_cons_inv in Hp as (c1 & p1 & -> & Hc1 & Hp1).
    apply toLowerCase_cons_inv in Ht as (d1 & t1 & -> & Hd1 & Ht1).
    apply GlobIgnoreCase_char; [| | |by apply IH].
    + by rewrite <- lowerChar_eqb_star, Hc1.
    + by rewrite <- lowerChar_eqb_question, Hc1.
    + rewrite sameLetter_lowerChar, Hc1, Hd1. apply Ascii.eqb_refl.
  - apply toLowerCase_cons_inv in Hp as (c1 & p1 & -> & Hc1 & Hp1).
    apply toLowerCase_cons_inv in Ht as (d1 & t1 & -> & Hd1 & Ht1).
    apply lowerChar_question in Hc1 as ->.
    apply GlobIgnoreCase_one; [|by apply IH].
    by rewrite <- lowerChar_lineTerminator, Hd1.
  - apply toLowerCase_cons_inv in Hp as (c1 & p1 & -> & Hc1 & Hp1).
    apply lowerChar_star in Hc1 as ->.
    apply GlobIgnoreCase_star_done. by apply IH.
  - pose proof Hp as Hp'.
    apply toLowerCase_cons_inv in Hp as (c1 & p1 & -> & Hc1 & Hp1).
    apply toLowerCase_cons_inv in Ht as (d1 & t1 & -> & Hd1 & Ht1).
    apply lowerChar_star in Hc1 as ->.
    apply GlobIgnoreCase_star_more; [by rewrite <- lowerChar_lineTerminator, Hd1|].
    by apply IH.
Qed.

Lemma GlobIgnoreCase_toLowerCase p text :
  GlobIgnoreCase p text <-> Glob (toLowerCase p) (toLowerCase text).
Proof.
  split; [apply GlobIgnoreCase_lower|]. intros Hg.
  by apply (Glob_lower_inv _ _ Hg).
Qed.


End GlobFacts.

(** X1. For every pattern other than ["*"] and every string value,
    [wildcardMatch] holds exactly when the value is denoted by the pattern
    read as a glob without regard to case: [*] is any run of characters
    without line terminators, [?] one such character, and every other
    character, regular expression metacharacters included, stands for its
    letter in either case. *)
Theorem wildcardMatch_glob (pattern text : string) :
  pattern <> "*" ->
  wildcardMatch (Some pattern) (Some (AString text)) = true
  <-> GlobIgnoreCase pattern text.
Proof.
  intros Hstar. rewrite GlobFacts.GlobIgnoreCase_toLowerCase.
  by apply GlobFacts.wildcardMatch_Glob.
Qed.

Lemma wildcardMatch_glob_witness :
  wildcardMatch (Some "/api/*/Item?.(x)") (Some (AString "/API/v1/users/item7.(X)")) = true
  <-> GlobIgnoreCase "/api/*/Item?.(x)" "/API/v1/users/item7.(X)".
Proof. apply wildcardMatch_glob. discriminate. Defined.

(** X2. The regular expression source built from a pattern always
    compiles, whatever characters the pattern holds, and it compiles to one
    term per pattern character between the two anchors: escaping loses and
    adds nothing. *)
Theorem convertPatternToRegExp_compiles (pattern : string) :
  RegExp.parse ("^" ++ convertPatternToRegExp pattern ++ "$")
  = Some (RegExp.AssertStart :: termsOfPattern pattern ++ [RegExp.AssertEnd])%list.
Proof. apply RegExpFacts.convert_parse. Qed.

Module WildcardFacts.
Import JsString JsStringFacts RegExp RegExpFacts GlobFacts.

Lemma lowerChar_idemp c : lowerChar (lowerChar c) = lowerChar c.
Proof. destruct c as [[] [] [] [] [] [] [] []]; reflexivity. Qed.

Lemma toLowerCase_idemp s : toLowerCase (toLowerCase s) = toLowerCase s.
Proof.
  induction s as [|c s IH]; [reflexivity|].
  by rewrite !toLowerCase_cons, lowerChar_idemp, IH.
Qed.

(** Only the lower-cased arguments matter. *)
Lemma wildcardMatch_toLowerCase pattern text :
  wildcardMatch (Some pattern) (Some (AString text))
  = wildcardMatch (Some (toLowerCase pattern)) (Some (AString (toLowerCase text))).
Proof.
  destruct (decide (pattern = "*")) as [->|Hstar]; [reflexivity|].
  destruct (decide (pattern = "")) as [->|Hne].
  { unfold wildcardMatch. simpl. by rewrite length_toLowerCase. }
  assert (toLowerCase pattern <> "*") as Hstar'.
  { intros H. apply Hstar. apply (proj1 (toLowerCase_star pattern) H). }
  assert (toLowerCase pattern <> "") as Hne'.
  { intros H. apply Hne. apply (proj1 (toLowerCase_empty pattern) H). }
  rewrite (wildcardMatch_string pattern) by done.
  rewrite (wildcardMatch_string (toLowerCase pattern)) by done.
  by rewrite !toLowerCase_idemp.
Qed.

End WildcardFacts.

(** X3. Matching ignores case on both sides: patterns that are equal up to
    case and values that are equal up to case give the same verdict. *)
Theorem wildcardMatch_ignoreCase (pattern pattern' text text' : string) :
  equalsIgnoreCase pattern pattern' ->
  equalsIgnoreCase text text' ->
  wildcardMatch (Some pattern) (Some (AString text))
  = wildcardMatch (Some pattern') (Some (AString text')).
Proof.
  rewrite !JsStringFacts.equalsIgnoreCase_toLowerCase. intros Hp Ht.
  rewrite (WildcardFacts.wildcardMatch_toLowerCase pattern),
    (WildcardFacts.wildcardMatch_toLowerCase pattern').
  by rewrite Hp, Ht.
Qed.

Lemma wildcardMatch_ignoreCase_witness :
  wildcardMatch (Some (String "201" "t*")) (Some (AString (String "233" "tude")))
  = wildcardMatch (Some (String "233" "T*")) (Some (AString (String "201" "TUDE"))).
Proof. apply wildcardMatch_ignoreCase; reflexivity. Defined.

(** X4. Except for the pattern ["*"], which is answered before any regular
    expression is built, a value that holds a line terminator is rejected
    unless the pattern spells that same character out: no wildcard ever
    stands for a line terminator. *)
Theorem wildcardMatch_line_terminator (pattern text : string) (c : ascii) :
  pattern <> "*" ->
  RegExp.isLineTerminator c = true ->
  JsString.contains c text = true ->
  JsString.contains c pattern = false ->
  wildcardMatch (Some pattern) (Some (AString text)) = false.
Proof.
  intros Hstar Hc Htext Hpattern. apply not_true_is_false.
  intros Hg%GlobFacts.wildcardMatch_Glob; [|done].
  eapply GlobFacts.Glob_line_terminator in Hg; [|exact Hc|].
  - rewrite GlobFacts.contains_toLowerCase_lineTerminator in Hg by done. congruence.
  - by rewrite GlobFacts.contains_toLowerCase_lineTerminator.
Qed.

Lemma wildcardMatch_line_terminator_witness :
  wildcardMatch (Some "**") (Some (AString (String "a" (String "010" "b")))) = false.
Proof.
  apply (wildcardMatch_line_terminator _ _ "010"); [discriminate|reflexivity..].
Defined.

(** X5. Every string, read as a pattern, matches itself and every value
    equal to it up to case, wildcards and metacharacters included. *)
Theorem wildcardMatch_self (pattern text : string) :
  equalsIgnoreCase pattern text ->
  wildcardMatch (Some pattern) (Some (AString text)) = true.
Proof.
  rewrite JsStringFacts.equalsIgnoreCase_toLowerCase. intros Heq.
  destruct (decide (pattern = "*")) as [->|Hstar]; [reflexivity|].
  apply GlobFacts.wildcardMatch_Glob; [done|].
  rewrite <- Heq. apply GlobFacts.Glob_refl.
Qed.

Lemma wildcardMatch_self_witness :
  wildcardMatch (Some "a*b?[c]\.$") (Some (AString "A*B?[C]\.$")) = true.
Proof. apply wildcardMatch_self. reflexivity. Defined.



(** ** More on [attributeMatch] *)

Module AttributeMatchMore.
Import AttributeMatchFacts.

Lemma attributeMatch_undeclared (attrs : option Attributes)
    (ruleAttributes : option (gmap string string)) :
  ruleAttributes = None \/ ruleAttributes = Some ∅ ->
  attributeMatch attrs ruleAttributes = true.
Proof. by intros [-> | ->]. Qed.

Lemma attributeMatch_absent (ruleAttributes : gmap string string) :
  ruleAttributes <> ∅ -> attributeMatch None (Some ruleAttributes) = false.
Proof.
  intros Hne. unfold attributeMatch. rewrite length_Object_keys.
  assert (size ruleAttributes <> 0%nat) as Hsz
    by (intros ?%map_size_empty_iff; done).
  by destruct (Nat.eqb_spec (size ruleAttributes) 0).
Qed.

Lemma bool_eq_iff (b1 b2 : bool) : (b1 = true <-> b2 = true) -> b1 = b2.
Proof. destruct b1, b2; intros [H1 H2]; auto; symmetry; auto. Qed.

End AttributeMatchMore.

(** X7. Only the attributes a rule declares matter: two candidates that
    agree on every declared key get the same verdict, whatever else they
    carry. *)
Theorem attributeMatch_declared_keys_only (a a' : Attributes)
    (ruleAttributes : option (gmap string string)) :
  (forall declared key,
      ruleAttributes = Some declared -> is_Some (declared !! key) ->
      a !! key = a' !! key) ->
  attributeMatch (Some a) ruleAttributes = attributeMatch (Some a') ruleAttributes.
Proof.
  intros Hagree. destruct ruleAttributes as [declared|]; [|reflexivity].
  destruct (decide (declared = ∅)) as [->|Hne]; [reflexivity|].
  apply AttributeMatchMore.bool_eq_iff.
  rewrite !AttributeMatchFacts.attributeMatch_declared by done.
  unfold allDeclaredMatch. split; intros Hall key pattern Hkey.
  - rewrite <- (Hagree declared key) by eauto. by apply Hall.
  - rewrite (Hagree declared key) by eauto. by apply Hall.
Qed.

Lemma attributeMatch_declared_keys_only_witness :
  attributeMatch (Some {["abc" := Some (AString "1234")]}) (Some {["abc" := "12*"]})
  = attributeMatch
      (Some {["abc" := Some (AString "1234"); "other" := Some (ABoolean true)]})
      (Some {["abc" := "12*"]}).
Proof.
  apply attributeMatch_declared_keys_only.
  intros declared key [= <-] [pattern [<- _]%lookup_singleton_Some].
  reflexivity.
Defined.

(** X8. A candidate that matches keeps matching when attributes are added
    to it. *)
Theorem attributeMatch_monotone (a a' : Attributes)
    (ruleAttributes : option (gmap string string)) :
  a ⊆ a' ->
  attributeMatch (Some a) ruleAttributes = true ->
  attributeMatch (Some a') ruleAttributes = true.
Proof.
  intros Hsub. destruct ruleAttributes as [declared|]; [|done].
  destruct (decide (declared = ∅)) as [->|Hne]; [done|].
  rewrite !AttributeMatchFacts.attributeMatch_declared by done.
  intros Hall key pattern Hkey. destruct (Hall key pattern Hkey) as (value & Ha & Hm).
  exists value. split; [|done]. by eapply lookup_weaken.
Qed.

Lemma attributeMatch_monotone_witness :
  attributeMatch
    (Some {["abc" := Some (AString "1234"); "other" := Some (ABoolean true)]})
    (Some {["abc" := "12*"]}) = true.
Proof.
  apply (attributeMatch_monotone {["abc" := Some (AString "1234")]}).
  - apply insert_mono, map_empty_subseteq.
  - vm_compute. reflexivity.
Defined.

(** X9. When a rule declares a pattern other than ["*"] for a key, a
    matching candidate carries a string under that key: a number, a boolean,
    an array or [undefined] never satisfies such a pattern, even when its
    printed form would. *)
Theorem attributeMatch_needs_string (attrs : option Attributes)
    (declared : gmap string string) (key pattern : string) :
  attributeMatch attrs (Some declared) = true ->
  declared !! key = Some pattern ->
  pattern <> "*" ->
  exists a s,
    attrs = Some a /\ a !! key = Some (Some (AString s))
    /\ wildcardMatch (Some pattern) (Some (AString s)) = true.
Proof.
  intros Hmatch Hkey Hstar.
  assert (declared <> ∅) as Hne by (intros ->; by rewrite lookup_empty in Hkey).
  destruct attrs as [a|];
    [|by rewrite AttributeMatchMore.attributeMatch_absent in Hmatch].
  apply AttributeMatchFacts.attributeMatch_declared in Hmatch; [|done].
  destruct (Hmatch key pattern Hkey) as (value & Ha & Hm).
  exists a. unfold wildcardMatch in Hm.
  destruct (decide (Some pattern = Some "*")) as [[= ->]|_]; [done|].
  destruct value as [[s| | | | |]|]; try discriminate Hm.
  exists s. split; [done|]. split; [done|].
  unfold wildcardMatch. by rewrite decide_False by congruence.
Qed.

Lemma attributeMatch_needs_string_witness :
  exists a s,
    Some ({["abc" := Some (AString "1234")]} : Attributes) = Some a
    /\ a !! "abc" = Some (Some (AString s))
    /\ wildcardMatch (Some "12*") (Some (AString s)) = true.
Proof.
  apply (attributeMatch_needs_string _ {["abc" := "12*"]} "abc" "12*").
  - vm_compute. reflexivity.
  - apply lookup_singleton_eq.
  - discriminate.
Defined.

Example attributeMatch_number_is_not_a_string :
  attributeMatch (Some {["http.status_code" := Some (ANumber 200)]})
    (Some {["http.status_code" := "200"]}) = false.
Proof. vm_compute. reflexivity. Qed.

(** ** More on [RuleCache] *)

Section RuleCacheMore.

Context {SamplingRuleApplier Resource : Type}.
Variable samplingRule : SamplingRuleApplier -> SamplingRule.t.
Variable matches : SamplingRuleApplier -> Attributes -> Resource -> bool.
Variable withTarget :
  SamplingRuleApplier -> JsObject.Value SamplingTargetDocument.t ->
  SamplingRuleApplier.
Variable memberNames : SamplingRuleApplier -> list string.
Variable equalsUndefined : SamplingRule.t -> SamplingRule.OnUndefined.

Local Abbreviation Cache := (@RuleCache SamplingRuleApplier Resource).
Local Abbreviation name := (ruleNameOf samplingRule).
Local Open Scope list_scope.

(** X10. Whatever the order of the array, [getMatchedRule] returns nothing
    exactly when no applier has its predicate satisfied and none is named
    "Default"; in particular a cache that holds a default applier always
    answers, and a new cache never does. *)
Theorem getMatchedRule_None_iff (this : Cache) (attributes : Attributes) :
  (getMatchedRule samplingRule matches this attributes = None
   <-> forall a, a ∈ ruleAppliers this ->
         ~ satisfied matches this attributes a /\ ~ isDefault samplingRule a)
  /\ (forall samplerResource now,
        getMatchedRule samplingRule matches
          (RuleCache_new samplerResource now) attributes = None).
Proof.
  split; [|done]. unfold getMatchedRule. split.
  - intros Hnone a Ha%list_elem_of_In.
    pose proof (find_none _ _ Hnone a Ha) as Hf. simpl in Hf.
    apply orb_false_iff in Hf as [Hm Hd]. split.
    + unfold satisfied. congruence.
    + unfold isDefault, ruleNameOf. by apply String.eqb_neq.
  - intros Hall. destruct (List.find _ _) as [a|] eqn:Hfind; [|done].
    apply find_some in Hfind as [Ha%list_elem_of_In Hf].
    destruct (Hall a Ha) as [Hs Hd].
    apply (getMatchedRule_test samplingRule matches) in Hf as [?|?]; done.
Qed.

(** X11. The comparator of [sortRulesByPriority] never returns 0.  On two
    appliers that differ in priority or in name it is antisymmetric, and
    negative exactly when the first is before the second in (Priority,
    RuleName) order; on two appliers with the same priority and name it
    returns 1 in both directions. *)
Theorem compareRules_sign (a b : SamplingRuleApplier) :
  compareRules samplingRule a b <> 0
  /\ (compareRules samplingRule a b < 0
      <-> applierLe samplingRule a b /\ ~ applierLe samplingRule b a)
  /\ (SamplingRule.Priority (samplingRule a) <> SamplingRule.Priority (samplingRule b)
      \/ name a <> name b ->
      (compareRules samplingRule a b < 0 <-> 0 < compareRules samplingRule b a))
  /\ (SamplingRule.Priority (samplingRule a) = SamplingRule.Priority (samplingRule b) ->
      name a = name b ->
      compareRules samplingRule a b = 1 /\ compareRules samplingRule b a = 1).
Proof using samplingRule.
  assert (forall x y, compareRules samplingRule x y <> 0) as Hnz.
  { intros x y. unfold compareRules.
    destruct (Z.eqb_spec (SamplingRule.Priority (samplingRule x))
                (SamplingRule.Priority (samplingRule y))); [|lia].
    destruct (String.ltb _ _); lia. }
  assert (forall x y, compareRules samplingRule x y < 0
                      <-> ~ applierLe samplingRule y x) as Hlt.
  { intros x y. rewrite <- (compareRules_le samplingRule y x). lia. }
  split; [apply Hnz|]. split; [|split].
  - rewrite Hlt. split; [|by intros [_ Hnle]]. intros Hnle. split; [|done].
    by destruct (applierLe_total samplingRule a b).
  - intros Hdiff. rewrite Hlt.
    assert (0 < compareRules samplingRule b a
            <-> ~ compareRules samplingRule b a < 0) as -> by (specialize (Hnz b a); lia).
    rewrite (compareRules_le samplingRule a b). split.
    + intros Hnle. by destruct (applierLe_total samplingRule a b).
    + intros Hab Hba. pose proof (applierLe_antisym_name samplingRule _ _ Hab Hba).
      destruct Hdiff as [Hp|Hn]; [|done].
      unfold applierLe, ruleLe in Hab, Hba. lia.
  - intros Hp Hn. unfold compareRules, ruleNameOf in *. rewrite Hp, Hn, Z.eqb_refl.
    assert (String.ltb (SamplingRule.RuleName (samplingRule b))
              (SamplingRule.RuleName (samplingRule b)) = false) as ->; [|done].
    rewrite string_ltb_leb.
    assert (String.leb (SamplingRule.RuleName (samplingRule b))
              (SamplingRule.RuleName (samplingRule b)) = true) as ->; [|done].
    apply Is_true_true. apply (reflexivity (R:=String.le)).
Qed.

Lemma adopted_samplingRule (m : gmap string SamplingRuleApplier) n :
  samplingRule (adopted samplingRule m n) = samplingRule n.
Proof.
  unfold adopted, SamplingRule.equals. destruct (m !! _) as [o|]; [|done].
  destruct (decide (samplingRule n = samplingRule o)) as [Heq|Hne].
  - by rewrite bool_decide_true.
  - by rewrite bool_decide_false.
Qed.


Lemma existsb_Permutation {A} (f : A -> bool) (l l' : list A) :
  l ≡ₚ l' -> existsb f l = existsb f l'.
Proof.
  induction 1 as [|x l l' _ IH|x y l|l l' l'' _ IH1 _ IH2]; simpl.
  - done.
  - by rewrite IH.
  - by destruct (f x), (f y).
  - congruence.
Qed.


(** X13. When the incoming rule names are unique, the outcome of the
    refresh, and the appliers of the refreshed cache, do not depend on the
    order of the incoming array, nor on the time of the refresh. *)
Theorem updateRules_order_independent (this : Cache)
    (news news' : list SamplingRuleApplier) (now now' : Z) :
  uniqueNames samplingRule news ->
  news ≡ₚ news' ->
  ruleAppliers <$> updateRules samplingRule memberNames equalsUndefined this news now
  = ruleAppliers <$> updateRules samplingRule memberNames equalsUndefined this news' now'.
Proof.
  intros Huniq Hperm. rewrite !updateRules_unfold.
  set (m := oldRuleAppliersMap samplingRule this).
  rewrite <- (existsb_Permutation _ news news' Hperm).
  destruct (existsb _ news); [done|]. simpl. f_equal.
  apply sort_compareRules_unique.
  - unfold uniqueNames in *.
    assert (name <$> (adopted samplingRule m <$> news') = name <$> news') as ->.
    { rewrite <- list_fmap_compose. apply list_fmap_ext.
      intros i n _. unfold compose, ruleNameOf. by rewrite adopted_samplingRule. }
    by rewrite <- Hperm.
  - by rewrite sort_compareRules_Permutation, Hperm.
  - apply sort_compareRules_sorted.
Qed.

(** X14. A cache refreshed at time [t] is expired exactly from
    [t + 3600000] milliseconds on, excluded, however many times targets are
    applied in between. *)
Theorem isExpired_after_refresh (this refreshed : Cache)
    (news : list SamplingRuleApplier)
    (t : Z) (targets : list (TargetMap * Z)) (now : Z) :
  updateRules samplingRule memberNames equalsUndefined this news t = Some refreshed ->
  let this' :=
    foldl (fun c '(targetDocuments, lastRuleModification) =>
             snd (updateTargets samplingRule withTarget c targetDocuments
                    lastRuleModification))
      refreshed targets in
  isExpired this' now = true <-> now > t + 60 * 60 * 1000.
Proof.
  intros ->%updateRules_Some. cbv zeta.
  assert (forall c : Cache,
            lastUpdatedEpochMillis
              (foldl (fun c '(targetDocuments, lastRuleModification) =>
                        snd (updateTargets samplingRule withTarget c targetDocuments
                               lastRuleModification)) c targets)
            = lastUpdatedEpochMillis c) as Hkeep.
  { induction targets as [|[targetDocuments lastRuleModification] targets IH];
      intros c; [done|].
    simpl. rewrite IH. by rewrite updateTargets_unfold. }
  unfold isExpired. rewrite Hkeep. simpl.
  unfold RULE_CACHE_TTL_MILLIS. rewrite Z.gtb_gt. reflexivity.
Qed.

(** X15. [updateTargets] puts, at the place of every applier whose rule
    name has an entry among the received targets, the applier that
    [withTarget] returns for that entry. *)
Theorem updateTargets_applies (this : Cache) (targetDocuments : TargetMap)
    (lastRuleModification : Z) (index : nat) (a : SamplingRuleApplier)
    (target : SamplingTargetDocument.t) :
  ruleAppliers this !! index = Some a ->
  targetDocuments !! name a = Some target ->
  ruleAppliers
    (snd (updateTargets samplingRule withTarget this targetDocuments
            lastRuleModification)) !! index
  = Some (withTarget a (JsObject.Own target)).
Proof.
  intros Ha Htarget. rewrite updateTargets_unfold. cbv zeta. simpl.
  rewrite list_lookup_fmap, Ha. unfold retargeted, JsObject.get.
  cbn [fmap option_fmap option_map]. by rewrite Htarget.
Qed.

(** X16. With no target received, [updateTargets] asks for the default
    polling interval and leaves every applier as it is, except those whose
    rule name is the name of a member of [Object.prototype]: these it
    replaces by what [withTarget] makes of that member.  A cache without
    such a rule name is left as it is. *)
Theorem updateTargets_empty (this : Cache) (lastRuleModification : Z) :
  let result := updateTargets samplingRule withTarget this ∅ lastRuleModification in
  fst result
  = (lastRuleModification * 1000 >? lastUpdatedEpochMillis this,
     DEFAULT_TARGET_POLLING_INTERVAL_SECONDS)
  /\ ruleAppliers (snd result)
     = (fun a => if hasPrototypeName samplingRule a
                 then withTarget a (JsObject.Inherited (name a))
                 else a) <$> ruleAppliers this
  /\ ((forall a, a ∈ ruleAppliers this -> hasPrototypeName samplingRule a = false) ->
      result
      = ((lastRuleModification * 1000 >? lastUpdatedEpochMillis this,
          DEFAULT_TARGET_POLLING_INTERVAL_SECONDS),
         this)).
Proof.
  cbv zeta. rewrite updateTargets_unfold. cbv zeta.
  assert (foldl (minStep samplingRule withTarget ∅) None (ruleAppliers this) = None)
    as ->.
  { pose proof (foldl_minStep samplingRule withTarget ∅ (ruleAppliers this) None)
      as Hmin.
    destruct (foldl _ _ _) as [x|]; [|done].
    destruct Hmin as ([[=]|(a & _ & Ha)] & _).
    unfold intervalOf in Ha. by rewrite lookup_empty in Ha. }
  assert (retargeted samplingRule withTarget ∅ <$> ruleAppliers this
          = (fun a => if hasPrototypeName samplingRule a
                      then withTarget a (JsObject.Inherited (name a))
                      else a) <$> ruleAppliers this) as Hmap.
  { apply list_fmap_ext. intros i a _.
    unfold retargeted, JsObject.get, hasPrototypeName. rewrite lookup_empty.
    by destruct (JsObject.isPrototypeName _). }
  simpl. split; [done|]. split; [done|].
  intros Hnames. rewrite Hmap. destruct this as [appliers millis resource].
  simpl in *. f_equal. f_equal.
  rewrite <- (list_fmap_id appliers) at 2.
  apply list_fmap_ext.
  intros i a Ha%list_elem_of_lookup_2. by rewrite Hnames.
Qed.

(** X17. The polling interval that [updateTargets] returns is never 0, and
    it is positive when no received target carries a negative [Interval]. *)
Theorem updateTargets_interval_nonzero (this : Cache) (targetDocuments : TargetMap)
    (lastRuleModification : Z) :
  let next :=
    snd (fst (updateTargets samplingRule withTarget this targetDocuments
                lastRuleModification)) in
  next <> 0
  /\ ((forall ruleName target i,
         targetDocuments !! ruleName = Some target ->
         SamplingTargetDocument.Interval target = Some i -> 0 <= i) ->
      0 < next).
Proof.
  cbv zeta. rewrite updateTargets_unfold. cbv zeta. simpl snd.
  pose proof (foldl_minStep samplingRule withTarget targetDocuments
                (ruleAppliers this) None) as Hmin.
  destruct (foldl _ _ _) as [x|]; [|done].
  destruct Hmin as ([[=]|(a & Ha & Hia)] & _).
  unfold intervalOf in Hia.
  destruct (targetDocuments !! _) as [target|] eqn:Htarget; [|done].
  destruct (SamplingTargetDocument.Interval target) as [j|] eqn:Hj; [|done].
  destruct (Z.eqb_spec j 0); [done|]. injection Hia as ->.
  assert (truthy (Some x) = true) as ->
    by (simpl; by destruct (Z.eqb_spec x 0)).
  simpl. split; [done|]. intros Hpos.
  specialize (Hpos _ _ _ Htarget Hj). lia.
Qed.

End RuleCacheMore.

Lemma compareRules_sign_witness :
  compareRules ReferenceApplier.samplingRule Examples.checkout Examples.defaultLastApplier < 0
  <-> 0 < compareRules ReferenceApplier.samplingRule Examples.defaultLastApplier
            Examples.checkout.
Proof.
  apply (compareRules_sign ReferenceApplier.samplingRule).
  left. intros H. vm_compute in H. discriminate H.
Defined.


Lemma updateRules_order_independent_witness :
  ruleAppliers <$>
    updateRules ReferenceApplier.samplingRule ReferenceApplier.memberNames
      ReferenceApplier.equalsUndefined Examples.cacheInUse
      [Examples.defaultLastApplier; Examples.checkout] 5
  = ruleAppliers <$>
      updateRules ReferenceApplier.samplingRule ReferenceApplier.memberNames
        ReferenceApplier.equalsUndefined Examples.cacheInUse
        [Examples.checkout; Examples.defaultLastApplier] 9.
Proof.
  apply updateRules_order_independent.
  - unfold uniqueNames. simpl.
    apply NoDup_cons. split; [|apply NoDup_singleton].
    intros Hin%list_elem_of_singleton. discriminate Hin.
  - apply Permutation_swap.
Defined.

Lemma isExpired_after_refresh_witness :
  isExpired
    (snd (updateTargets ReferenceApplier.samplingRule ReferenceApplier.withTarget
            Examples.cacheUsual
            {["checkout" := Examples.target "checkout" (Some 30)]} 2))
    3600002 = true
  <-> 3600002 > 1 + 60 * 60 * 1000.
Proof.
  apply (isExpired_after_refresh ReferenceApplier.samplingRule
           ReferenceApplier.withTarget ReferenceApplier.memberNames
           ReferenceApplier.equalsUndefined (RuleCache_new tt 0) Examples.cacheUsual
           [Examples.defaultLastApplier; Examples.checkout] 1
           [({["checkout" := Examples.target "checkout" (Some 30)]}, 2)] 3600002).
  apply ExampleFacts.cacheUsual_refreshed.
Defined.

Lemma updateTargets_applies_witness :
  ruleAppliers
    (snd (updateTargets ReferenceApplier.samplingRule ReferenceApplier.withTarget
            Examples.cacheInUse
            {["checkout" := Examples.target "checkout" (Some 30)]} 0)) !! 0%nat
  = Some (ReferenceApplier.withTarget
            (ReferenceApplier.counted Examples.checkout 7 3 1)
            (JsObject.Own (Examples.target "checkout" (Some 30)))).
Proof.
  apply (updateTargets_applies ReferenceApplier.samplingRule ReferenceApplier.withTarget
           Examples.cacheInUse _ 0 0%nat).
  - reflexivity.
  - vm_compute. reflexivity.
Defined.

Lemma updateTargets_empty_witness :
  updateTargets ReferenceApplier.samplingRule ReferenceApplier.withTarget
    Examples.cacheInUse ∅ 0
  = ((0 * 1000 >? lastUpdatedEpochMillis Examples.cacheInUse,
      DEFAULT_TARGET_POLLING_INTERVAL_SECONDS),
     Examples.cacheInUse).
Proof.
  apply (updateTargets_empty ReferenceApplier.samplingRule ReferenceApplier.withTarget
           Examples.cacheInUse 0).
  intros a [->|Ha]%elem_of_cons; [reflexivity|].
  by apply list_elem_of_singleton in Ha as ->.
Defined.

Lemma updateTargets_interval_nonzero_witness :
  0 < snd (fst (updateTargets ReferenceApplier.samplingRule ReferenceApplier.withTarget
                  Examples.cacheInUse
                  {["checkout" := Examples.target "checkout" (Some 30)]} 0)).
Proof.
  apply (updateTargets_interval_nonzero ReferenceApplier.samplingRule
           ReferenceApplier.withTarget Examples.cacheInUse _ 0).
  intros ruleName target i [<- <-]%lookup_singleton_Some [= <-]. lia.
Defined.

(** ** [createSamplingStatisticsDocuments] *)

Section RuleCacheStatisticsFacts.

Context {SamplingRuleApplier Resource : Type}.
Variable samplingRule : SamplingRuleApplier -> SamplingRule.t.
Variable snapshotStatistics :
  SamplingRuleApplier -> ISamplingStatistics.t * SamplingRuleApplier.

Local Abbreviation Cache := (@RuleCache SamplingRuleApplier Resource).
Local Abbreviation create :=
  (createSamplingStatisticsDocuments samplingRule snapshotStatistics).
Local Open Scope list_scope.

Lemma pushStatisticsDocument_middle clientId clock pre x l docs :
  pushStatisticsDocument samplingRule snapshotStatistics clientId clock x (length pre)
    (pre ++ x :: l, docs)
  = ((pre ++ [snd (snapshotStatistics x)]) ++ l,
     docs ++ [statisticsDocumentOf samplingRule snapshotStatistics clientId clock
                (length pre) x]).
Proof.
  unfold pushStatisticsDocument, statisticsDocumentOf.
  destruct (snapshotStatistics x) as [statistics x'].
  rewrite <- app_assoc. simpl. by rewrite insert_middle.
Qed.

(** The loop, document by document. *)
Lemma forEachFrom_pushStatisticsDocument clientId clock l : forall pre docs,
  JsArray.forEachFrom fst
    (pushStatisticsDocument samplingRule snapshotStatistics clientId clock)
    (length pre) (length l) (pre ++ l, docs)
  = (pre ++ ((fun x => snd (snapshotStatistics x)) <$> l),
     docs ++ imap (fun i x =>
                     statisticsDocumentOf samplingRule snapshotStatistics clientId clock
                       (length pre + i) x) l).
Proof.
  induction l as [|x l IH]; intros pre docs.
  { simpl. by rewrite !app_nil_r. }
  change (length (x :: l)) with (S (length l)).
  rewrite forEachFrom_S. cbv [fst]. rewrite lookup_middle, pushStatisticsDocument_middle.
  replace (S (length pre)) with (length (pre ++ [snd (snapshotStatistics x)]))
    by (rewrite length_app; simpl; lia).
  rewrite IH, <- !app_assoc. simpl. rewrite Nat.add_0_r. do 3 f_equal.
  apply imap_ext. intros i y _. simpl. f_equal. rewrite length_app. simpl. lia.
Qed.

Lemma forEach_pushStatisticsDocument clientId clock (l : list SamplingRuleApplier) :
  JsArray.forEach fst
    (pushStatisticsDocument samplingRule snapshotStatistics clientId clock) (l, [])
  = ((fun x => snd (snapshotStatistics x)) <$> l,
     imap (statisticsDocumentOf samplingRule snapshotStatistics clientId clock) l).
Proof. apply (forEachFrom_pushStatisticsDocument clientId clock l [] []). Qed.

Lemma createSamplingStatisticsDocuments_unfold (this : Cache) clientId clock :
  create this clientId clock
  = (imap (statisticsDocumentOf samplingRule snapshotStatistics clientId clock)
       (ruleAppliers this),
     {| ruleAppliers := (fun x => snd (snapshotStatistics x)) <$> ruleAppliers this;
        lastUpdatedEpochMillis := lastUpdatedEpochMillis this;
        samplerResource := samplerResource this |}).
Proof.
  unfold createSamplingStatisticsDocuments.
  by rewrite forEach_pushStatisticsDocument.
Qed.

(** X18. [createSamplingStatisticsDocuments] returns one document per
    applier, in the order of the cache.  The document of an applier carries
    the client id, the rule name, the counters of that applier's statistics
    snapshot ([SampleCount] under the name [SampledCount]) and the clock
    reading of its visit in whole seconds; the applier is left as the
    snapshot leaves it, and [lastUpdatedEpochMillis] is not touched. *)
Theorem createSamplingStatisticsDocuments_documents (this : Cache)
    (clientId : string) (clock : nat -> Z) :
  let docs := fst (create this clientId clock) in
  let this' := snd (create this clientId clock) in
  length docs = length (ruleAppliers this)
  /\ lastUpdatedEpochMillis this' = lastUpdatedEpochMillis this
  /\ forall i rule,
       ruleAppliers this !! i = Some rule ->
       let statistics := fst (snapshotStatistics rule) in
       exists doc,
         docs !! i = Some doc
         /\ SamplingStatisticsDocument.ClientID doc = clientId
         /\ SamplingStatisticsDocument.RuleName doc
            = SamplingRule.RuleName (samplingRule (snd (snapshotStatistics rule)))
         /\ SamplingStatisticsDocument.RequestCount doc
            = ISamplingStatistics.RequestCount statistics
         /\ SamplingStatisticsDocument.BorrowCount doc
            = ISamplingStatistics.BorrowCount statistics
         /\ SamplingStatisticsDocument.SampledCount doc
            = ISamplingStatistics.SampleCount statistics
         /\ SamplingStatisticsDocument.Timestamp doc * 1000 <= clock i
            < SamplingStatisticsDocument.Timestamp doc * 1000 + 1000
         /\ ruleAppliers this' !! i = Some (snd (snapshotStatistics rule)).
Proof.
  cbv zeta. rewrite createSamplingStatisticsDocuments_unfold. simpl.
  split; [by rewrite length_imap|]. split; [done|].
  intros i rule Hrule. eexists.
  split; [by rewrite list_lookup_imap, Hrule|].
  unfold statisticsDocumentOf. simpl. repeat split; try done.
  - pose proof (Z.mul_div_le (clock i) 1000 ltac:(lia)). lia.
  - pose proof (Z.mul_succ_div_gt (clock i) 1000 ltac:(lia)). lia.
  - by rewrite list_lookup_fmap, Hrule.
Qed.

(** X19. If a snapshot resets the counters, so that the snapshot of a
    freshly snapshotted applier is all zeros, then a second report that
    directly follows a first one carries only zeros: nothing is reported
    twice. *)
Theorem createSamplingStatisticsDocuments_no_double_count (this : Cache)
    (clientId clientId' : string) (clock clock' : nat -> Z) :
  (forall a, fst (snapshotStatistics (snd (snapshotStatistics a)))
             = ISamplingStatistics.mk 0 0 0) ->
  forall doc,
    doc ∈ fst (create (snd (create this clientId clock)) clientId' clock') ->
    SamplingStatisticsDocument.RequestCount doc = 0
    /\ SamplingStatisticsDocument.BorrowCount doc = 0
    /\ SamplingStatisticsDocument.SampledCount doc = 0.
Proof.
  intros Hreset doc Hdoc. rewrite !createSamplingStatisticsDocuments_unfold in Hdoc.
  simpl in Hdoc. apply list_elem_of_lookup in Hdoc as [i Hi].
  rewrite list_lookup_imap, list_lookup_fmap in Hi.
  destruct (ruleAppliers this !! i) as [a|]; [|done].
  simpl in Hi. injection Hi as <-.
  unfold statisticsDocumentOf. simpl. by rewrite (Hreset a).
Qed.

End RuleCacheStatisticsFacts.

Lemma createSamplingStatisticsDocuments_no_double_count_witness :
  let second :=
    fst (createSamplingStatisticsDocuments ReferenceApplier.samplingRule
           ReferenceStatistics.snapshotStatistics
           (snd (createSamplingStatisticsDocuments ReferenceApplier.samplingRule
                   ReferenceStatistics.snapshotStatistics
                   Examples.cacheInUse "client" (fun _ => 1700000000123)))
           "client" (fun _ => 1700000010456)) in
  let doc := SamplingStatisticsDocument.mk "client" "checkout" 1700000010 0 0 0 in
  doc ∈ second
  /\ SamplingStatisticsDocument.RequestCount doc = 0
  /\ SamplingStatisticsDocument.BorrowCount doc = 0
  /\ SamplingStatisticsDocument.SampledCount doc = 0.
Proof.
  cbv zeta.
  assert (SamplingStatisticsDocument.mk "client" "checkout" 1700000010 0 0 0
          ∈ fst (createSamplingStatisticsDocuments ReferenceApplier.samplingRule
                   ReferenceStatistics.snapshotStatistics
                   (snd (createSamplingStatisticsDocuments ReferenceApplier.samplingRule
                           ReferenceStatistics.snapshotStatistics
                           Examples.cacheInUse "client" (fun _ => 1700000000123)))
                   "client" (fun _ => 1700000010456))) as Hin.
  { rewrite !createSamplingStatisticsDocuments_unfold. simpl. left. }
  split; [exact Hin|].
  apply (createSamplingStatisticsDocuments_no_double_count
           ReferenceApplier.samplingRule ReferenceStatistics.snapshotStatistics
           _ _ _ _ _ (fun _ => eq_refl) _ Hin).
Defined.

Lemma createSamplingStatisticsDocuments_documents_witness :
  exists doc,
    fst (createSamplingStatisticsDocuments ReferenceApplier.samplingRule
           ReferenceStatistics.snapshotStatistics
           Examples.cacheInUse "client" (fun _ => 1700000000123)) !! 0%nat = Some doc
    /\ SamplingStatisticsDocument.RuleName doc = "checkout"
    /\ SamplingStatisticsDocument.RequestCount doc = 7
    /\ SamplingStatisticsDocument.Timestamp doc = 1700000000.
Proof.
  destruct (proj2 (proj2 (createSamplingStatisticsDocuments_documents
              ReferenceApplier.samplingRule ReferenceStatistics.snapshotStatistics
              Examples.cacheInUse "client" (fun _ => 1700000000123)))
              0%nat _ eq_refl) as (doc & Hdoc & _ & Hname & Hreq & _ & _ & Htime & _).
  exists doc. split; [exact Hdoc|]. split; [exact Hname|]. split; [exact Hreq|].
  lia.
Defined.

(** ** More on [FallbackSampler] *)

Section FallbackSamplerMore.

Context {Context_ SpanKind Link : Type}.
Context {TraceIdRatioBasedSampler RateLimitingSampler : Type}.
Variable TraceIdRatioBasedSampler_shouldSample :
  TraceIdRatioBasedSampler -> Context_ -> string -> SamplingResult.
Variable RateLimitingSampler_shouldSample :
  RateLimitingSampler -> Z ->
  Context_ -> string -> string -> SpanKind -> Attributes -> list Link ->
  SamplingResult * RateLimitingSampler.

(** X20. [shouldSample] drops a request exactly when both the rate
    limiting sampler and the trace-id-ratio sampler drop it.  The limiter is
    asked, and left in the state its own call produces, on every request,
    and the ratio sampler is never replaced. *)
Theorem FallbackSampler_shouldSample_drops
    (this : @FallbackSampler TraceIdRatioBasedSampler RateLimitingSampler)
    (rq : @Request Context_ SpanKind Link) :
  let limited :=
    RateLimitingSampler_shouldSample (rateLimitingSampler this) (req_now rq)
      (req_context rq) (req_traceId rq) (req_spanName rq) (req_spanKind rq)
      (req_attributes rq) (req_links rq) in
  let ratio :=
    TraceIdRatioBasedSampler_shouldSample (fixedRateSampler this)
      (req_context rq) (req_traceId rq) in
  let out :=
    FallbackSampler_shouldSample TraceIdRatioBasedSampler_shouldSample
      RateLimitingSampler_shouldSample this rq in
  (decision (fst out) = NOT_RECORD
   <-> decision (fst limited) = NOT_RECORD /\ decision ratio = NOT_RECORD)
  /\ rateLimitingSampler (snd out) = snd limited
  /\ fixedRateSampler (snd out) = fixedRateSampler this.
Proof.
  cbv zeta. rewrite shouldSample_unfold. simpl.
  split; [|done].
  destruct (decide (decision (fst (RateLimitingSampler_shouldSample _ _ _ _ _ _ _ _))
                    = NOT_RECORD)) as [Hd|Hd].
  - split; [done|]. by intros [_ ?].
  - split; [done|]. by intros [? _].
Qed.

End FallbackSamplerMore.

(** ** [bunyanLevelFromSeverity] *)

(** X21. When the six severity thresholds are in increasing order, the
    Bunyan level names cut the severities into consecutive bands: nothing
    below [TRACE], then "trace", "debug", "info", "warn" and "error" each
    from its threshold up to the next, and "fatal" from [FATAL] on. *)
Theorem bunyanLevelFromSeverity_bands (FATAL ERROR WARN INFO DEBUG TRACE severity : Z) :
  TRACE <= DEBUG <= INFO -> INFO <= WARN <= ERROR -> ERROR <= FATAL ->
  let level := bunyanLevelFromSeverity FATAL ERROR WARN INFO DEBUG TRACE severity in
  (level = None <-> severity < TRACE)
  /\ (level = Some "trace" <-> TRACE <= severity < DEBUG)
  /\ (level = Some "debug" <-> DEBUG <= severity < INFO)
  /\ (level = Some "info" <-> INFO <= severity < WARN)
  /\ (level = Some "warn" <-> WARN <= severity < ERROR)
  /\ (level = Some "error" <-> ERROR <= severity < FATAL)
  /\ (level = Some "fatal" <-> FATAL <= severity).
Proof.
  intros H1 H2 H3. cbv zeta. unfold bunyanLevelFromSeverity.
  destruct (Z.geb_spec severity FATAL);
    [|destruct (Z.geb_spec severity ERROR);
      [|destruct (Z.geb_spec severity WARN);
        [|destruct (Z.geb_spec severity INFO);
          [|destruct (Z.geb_spec severity DEBUG);
            [|destruct (Z.geb_spec severity TRACE)]]]]];
    repeat split; intros; try discriminate; try lia; try reflexivity.
Qed.

Lemma bunyanLevelFromSeverity_bands_witness :
  bunyanLevelFromSeverity 21 17 13 9 5 1 14 = Some "warn" <-> 13 <= 14 < 17.
Proof.
  apply (bunyanLevelFromSeverity_bands 21 17 13 9 5 1 14); lia.
Defined.

(** ** The order of the cache as an invariant *)

Section RuleCacheInvariant.

Context {SamplingRuleApplier Resource : Type}.
Variable samplingRule : SamplingRuleApplier -> SamplingRule.t.
Variable withTarget :
  SamplingRuleApplier -> JsObject.Value SamplingTargetDocument.t ->
  SamplingRuleApplier.
Variable memberNames : SamplingRuleApplier -> list string.
Variable equalsUndefined : SamplingRule.t -> SamplingRule.OnUndefined.

Local Open Scope list_scope.

(** X22. Provided [withTarget] keeps the rule of the applier it is called
    on, every cache that is reached from a new one by rule refreshes and
    target applications has its appliers in (Priority, RuleName) order, and
    applying targets to it changes neither the rules it holds nor their
    order. *)
Theorem reachable_keeps_priority_order
    (this : @RuleCache SamplingRuleApplier Resource) :
  (forall a target, samplingRule (withTarget a target) = samplingRule a) ->
  reachable samplingRule withTarget memberNames equalsUndefined this ->
  inPriorityOrder samplingRule (ruleAppliers this)
  /\ forall (targetDocuments : TargetMap) lastRuleModification,
       samplingRule <$>
         ruleAppliers (snd (updateTargets samplingRule withTarget this targetDocuments
                              lastRuleModification))
       = samplingRule <$> ruleAppliers this.
Proof.
  intros Hrule Hreach. split.
  - induction Hreach as [|this news now this' _ _ Hu
                         |this targetDocuments lastRuleModification _ IH].
    + constructor.
    + by eapply updateRules_inPriorityOrder.
    + by apply updateTargets_inPriorityOrder.
  - intros targetDocuments lastRuleModification.
    rewrite updateTargets_unfold. cbv zeta. simpl.
    rewrite <- list_fmap_compose. apply list_fmap_ext.
    intros i a _. unfold compose, retargeted.
    by destruct (JsObject.get targetDocuments _).
Qed.

End RuleCacheInvariant.

Lemma reachable_keeps_priority_order_witness :
  inPriorityOrder ReferenceApplier.samplingRule
    (ruleAppliers
       (snd (updateTargets ReferenceApplier.samplingRule ReferenceApplier.withTarget
               Examples.cacheUsual
               {["checkout" := Examples.target "checkout" (Some 30)]} 0))).
Proof.
  apply (reachable_keeps_priority_order ReferenceApplier.samplingRule
           ReferenceApplier.withTarget ReferenceApplier.memberNames
           ReferenceApplier.equalsUndefined).
  - by intros a [target|member].
  - apply reachable_updateTargets.
    eapply reachable_updateRules; [apply reachable_new|].
    apply ExampleFacts.cacheUsual_refreshed.
Defined.
